(** * OneDot data wrangling: a shallow embedding of [src/data_wrangling.py]

    The four operations of the module ([pre_processing], [translate],
    [normalize], [get_country_codes]) are embedded as functions over a small
    model of the pandas objects they manipulate.

    - A cell is [option value]: [None] is a missing entry (NaN / None).
    - Row labels and column labels are cells too: the pivot of
      [pre_processing] turns the cells of the key column into column labels.
    - A [Series] is a dtype tag and a list of cells; a [DataFrame] is a row
      index and an association list of labelled columns (the order of the
      columns matters and pandas does not forbid repeated labels).
    - The functions of the module mutate the table they are given
      ([df[col] = ...], [inplace=True]) and return that same object, so the
      tables live in a store and the operations are written in a state and
      exception monad over it.  A failure keeps the writes made before it.
    - [try / except Exception / else] yields one of three outcomes: the
      [else] branch returned an object, the handler ran and the function fell
      off its end (Python returns [None]), or the [else] branch itself raised
      (nothing catches that).

    pandas behaviour is taken from its documentation: [Series.map] with a
    dict gives a missing entry for an absent key, [Series.fillna] with a dict
    addresses ROW labels, [GroupBy.first] takes the first non-missing entry of
    each column and drops the group of the missing key, [unstack] refuses a
    repeated (row, column) pair, [merge] is an inner join that renames
    overlapping column labels with the suffixes [_x] and [_y] and refuses a
    join key that is both an index level and a column label.  Result rows and
    columns of [unstack] and [groupby] come out sorted.

    The dtype of a series is a tag.  A number stands for itself under every
    numeric dtype (10 and 10.0 are the same cell), so a change of dtype shows
    in the tag only.  The categories of a categorical series are the values
    it holds, which is what [astype("category")] builds.

    Strings are byte strings, and [upper] and [title] are the functions of
    ASCII text: they are Python's [str.upper] and [str.title] on strings
    without a byte above 127 ([is_ascii]) and on those only, since Python
    works on code points.  The properties of the transforms of [normalize]
    that speak of the case of a string therefore carry [is_ascii] as a
    hypothesis; the country codes a geocoder returns are ASCII. *)

From Stdlib Require Import ZArith String Ascii.
From stdpp Require Import base tactics option list gmap strings sorting pretty.

Local Open Scope string_scope.
Local Open Scope list_scope.

(** ** Values, cells, series and tables *)

Inductive value : Type :=
  | VStr (s : string)
  | VInt (z : Z).

#[global] Instance value_eq_dec : EqDecision value.
Proof. solve_decision. Defined.

(** A cell of a table; [None] is pandas' missing entry. *)
Definition cell : Type := option value.

(** Labels of rows and of columns are ordinary cells. *)
Definition label : Type := cell.

Definition str (s : string) : cell := Some (VStr s).
Definition int (z : Z) : cell := Some (VInt z).

(** The dtype tags the module uses: ["category"], ["O"], and the numeric
    ones (["h"], [np.float32]), kept symbolic. *)
Inductive dtype : Type :=
  | Category
  | Object
  | Numeric (tag : string).

#[global] Instance dtype_eq_dec : EqDecision dtype.
Proof. solve_decision. Defined.

Record Series : Type := mkSeries {
  s_dtype : dtype;
  s_values : list cell
}.

#[global] Instance Series_eq_dec : EqDecision Series.
Proof. solve_decision. Defined.

Record DataFrame : Type := mkDF {
  df_index : list label;
  df_columns : list (label * Series)
}.

#[global] Instance DataFrame_eq_dec : EqDecision DataFrame.
Proof. solve_decision. Defined.

(** [df.columns] *)
Definition columns (df : DataFrame) : list label := (df_columns df).*1.

(** [df[c]]: the first column labelled [c]; Python raises [KeyError] when
    there is none. *)
Fixpoint assoc {A : Type} (c : label) (cols : list (label * A)) : option A :=
  match cols with
  | [] => None
  | (c', s) :: rest => if decide (c' = c) then Some s else assoc c rest
  end.

Definition get_col (df : DataFrame) (c : label) : option Series :=
  assoc c (df_columns df).

(** [df[c] = s]: replaces the column labelled [c] where it stands, or
    appends a new column at the end. *)
Fixpoint set_assoc {A : Type} (c : label) (s : A) (cols : list (label * A))
  : list (label * A) :=
  match cols with
  | [] => [(c, s)]
  | (c', s') :: rest =>
      if decide (c' = c) then (c, s) :: rest else (c', s') :: set_assoc c s rest
  end.

Definition set_col (df : DataFrame) (c : label) (s : Series) : DataFrame :=
  mkDF (df_index df) (set_assoc c s (df_columns df)).

(** [df.drop(columns=c)]; [KeyError] when the label is absent. *)
Definition drop_col (df : DataFrame) (c : label) : option DataFrame :=
  if decide (c ∈ columns df)
  then Some (mkDF (df_index df) (filter (λ p, p.1 ≠ c) (df_columns df)))
  else None.

(** A table is well formed when its column labels are pairwise distinct and
    every column has one cell per row. *)
Definition wf_df (df : DataFrame) : Prop :=
  NoDup (columns df) ∧
  Forall (λ p, length (s_values p.2) = length (df_index df)) (df_columns df).

(** ** Sorting labels

    Missing first, then numbers by value, then strings byte-wise. *)

Definition cell_leb (a b : cell) : bool :=
  match a, b with
  | None, _ => true
  | Some _, None => false
  | Some (VInt x), Some (VInt y) => bool_decide (x ≤ y)%Z
  | Some (VInt _), Some (VStr _) => true
  | Some (VStr _), Some (VInt _) => false
  | Some (VStr s), Some (VStr t) => String.leb s t
  end.

Definition cell_le (a b : cell) : Prop := cell_leb a b = true.

#[global] Instance cell_le_dec : RelDecision cell_le.
Proof. intros a b. unfold cell_le. apply _. Defined.

(** The distinct entries of a list, sorted. *)
Definition sort_uniq (l : list cell) : list cell :=
  merge_sort cell_le (remove_dups l).

(** ** [pre_processing]: pivot, carry-forward, merge *)

(** The entry of the pivoted table at row label [r] and column label [c]:
    the value of the (unique) input row with that ID and that key. *)
Fixpoint pivot_cell (r c : label) (ids keys vals : list cell) : cell :=
  match ids, keys, vals with
  | i :: ids', k :: keys', v :: vals' =>
      if decide (i = r ∧ k = c) then v else pivot_cell r c ids' keys' vals'
  | _, _, _ => None
  end.

(** [df.set_index([id, key])[value].unstack()].  [set_index] moves the two
    columns into the row index, so [value] must be a third column;
    [unstack] raises [ValueError] on a repeated (ID, key) pair. *)
Definition set_index_unstack (df : DataFrame) (id key value : label)
  : option DataFrame :=
  ids ← get_col df id;
  keys ← get_col df key;
  rest ← drop_col df id ≫= (λ d, if decide (key = id) then Some d else drop_col d key);
  vals ← get_col rest value;
  if decide (NoDup (zip (s_values ids) (s_values keys))) then
    let rows := sort_uniq (s_values ids) in
    let cols := sort_uniq (s_values keys) in
    Some (mkDF rows
            ((λ c, (c, mkSeries (s_dtype vals)
                         ((λ r, pivot_cell r c (s_values ids) (s_values keys)
                                           (s_values vals)) <$> rows)))
               <$> cols))
  else None.

(** [GroupBy.first]: the first non-missing entry of a column among the rows
    of the group [g]. *)
Fixpoint first_valid (g : label) (ids vals : list cell) : cell :=
  match ids, vals with
  | i :: ids', v :: vals' =>
      if decide (i = g ∧ v ≠ None) then v else first_valid g ids' vals'
  | _, _ => None
  end.

(** [df.loc[:, ~df.columns.isin([key, value])].groupby(id).first()].  The
    grouping column must survive the column selection; rows whose ID is
    missing form no group. *)
Definition groupby_first (df : DataFrame) (id key value : label)
  : option DataFrame :=
  let kept := filter (λ p, p.1 ∉ [key; value]) (df_columns df) in
  ids ← assoc id kept;
  let groups := sort_uniq (filter (λ c, c ≠ None) (s_values ids)) in
  Some (mkDF groups
          ((λ p, (p.1, mkSeries (s_dtype p.2)
                         ((λ g, first_valid g (s_values ids) (s_values p.2))
                            <$> groups)))
             <$> filter (λ p, p.1 ≠ id) kept)).

(** [str(label)], as the suffixes of [merge] need it. *)
Definition label_str (c : label) : string :=
  match c with
  | None => "nan"
  | Some (VStr s) => s
  | Some (VInt z) => pretty z
  end.

Definition add_suffix (others : list label) (sfx : string) (c : label) : label :=
  if decide (c ∈ others) then str (label_str c +:+ sfx) else c.

(** Positions of the label [l] in an index, counted from [k]. *)
Fixpoint positions (l : label) (idx : list label) (k : nat) : list nat :=
  match idx with
  | [] => []
  | x :: xs =>
      if decide (x = l) then k :: positions l xs (S k) else positions l xs (S k)
  end.

(** Inner join of two row indexes: the pairs (left position, right
    position) that carry the same label, in the order of the left rows. *)
Fixpoint join_positions (lidx ridx : list label) (k : nat) : list (nat * nat) :=
  match lidx with
  | [] => []
  | l :: ls => (pair k <$> positions l ridx 0) ++ join_positions ls ridx (S k)
  end.

Definition take_rows (ps : list nat) (vals : list cell) : list cell :=
  (λ i, default (None : cell) (vals !! i)) <$> ps.

(** [left.merge(right, on=id)] where [id] names the row index of both
    tables.  pandas raises [ValueError] when [id] is also a column label of
    one of them (the key would be ambiguous). *)
Definition merge_on_index (left right : DataFrame) (id : label)
  : option DataFrame :=
  if decide (id ∈ columns left ∨ id ∈ columns right) then None
  else
    let jp := join_positions (df_index left) (df_index right) 0 in
    Some (mkDF (take_rows jp.*1 (df_index left))
            (((λ p, (add_suffix (columns right) "_x" p.1,
                     mkSeries (s_dtype p.2) (take_rows jp.*1 (s_values p.2))))
                <$> df_columns left)
             ++
             ((λ p, (add_suffix (columns left) "_y" p.1,
                     mkSeries (s_dtype p.2) (take_rows jp.*2 (s_values p.2))))
                <$> df_columns right))).

(** ** The store, the log and the monad of the module's functions *)

Definition loc : Type := nat.

Inductive log_record : Type :=
  | LogException (msg : string)
  | LogInfo (msg : string).

(** What a geocoder answers: it raises, it finds nothing (returns [None]),
    or it returns an address whose [country_code] field may be absent. *)
Inductive response : Type :=
  | GeoError
  | GeoNone
  | GeoAddress (country_code : option string).

(** The world a call runs in: the tables on the heap, the log written so
    far, the JSON files that can be opened and parse to a dict, and the
    queries sent to the geocoder so far. *)
Record world : Type := mkWorld {
  heap : list DataFrame;
  logs : list log_record;
  files : gmap string (gmap string cell);
  geo_calls : list cell
}.

(** A computation either yields a value or raises; the writes it made
    before raising stay in the world. *)
Definition M (A : Type) : Type := world → option A * world.

Definition ret {A : Type} (a : A) : M A := λ w, (Some a, w).
Definition raise {A : Type} : M A := λ w, (None, w).
Definition bind {A B : Type} (m : M A) (f : A → M B) : M B :=
  λ w, match m w with
       | (Some a, w') => f a w'
       | (None, w') => (None, w')
       end.
(** A pandas expression without effect on the store: a value or a raise. *)
Definition lift {A : Type} (o : option A) : M A := λ w, (o, w).

Declare Scope py_scope.
Delimit Scope py_scope with py.
Notation "x <- m ;; k" := (bind m (λ x, k))
  (at level 100, m at next level, right associativity) : py_scope.
Notation "m ;; k" := (bind m (λ _, k))
  (at level 100, right associativity) : py_scope.
Local Open Scope py_scope.

Definition read (df : loc) : M DataFrame := λ w, (heap w !! df, w).
Definition write (df : loc) (t : DataFrame) : M unit :=
  λ w, (Some tt, mkWorld (<[df := t]> (heap w)) (logs w) (files w) (geo_calls w)).
Definition alloc (t : DataFrame) : M loc :=
  λ w, (Some (length (heap w)),
        mkWorld (heap w ++ [t]) (logs w) (files w) (geo_calls w)).
Definition log (r : log_record) : M unit :=
  λ w, (Some tt, mkWorld (heap w) (logs w ++ [r]) (files w) (geo_calls w)).
(** [with open(path) as f: json.load(f)] *)
Definition load_json (path : string) : M (gmap string cell) :=
  λ w, (files w !! path, w).

(** What the caller of a function of the module gets. *)
Inductive outcome : Type :=
  | Returned (r : loc)
  | ReturnedNone
  | Raised.

#[global] Instance outcome_eq_dec : EqDecision outcome.
Proof. solve_decision. Defined.

(** [try: body / except Exception: logging.exception(msg) / else: orelse].
    The handler only logs, so the function then falls off its end; a raise
    inside [orelse] is not handled. *)
Definition try_except_else {A : Type} (body : M A) (msg : string)
    (orelse : A → M loc) : world → outcome * world :=
  λ w, match body w with
       | (None, w') =>
           (ReturnedNone, (log (LogException msg) w').2)
       | (Some a, w') =>
           match orelse a w' with
           | (Some r, w'') => (Returned r, w'')
           | (None, w'') => (Raised, w'')
           end
       end.

(** ** [pre_processing] *)

Definition pre_processing (df : loc) (key value id : string)
  : world → outcome * world :=
  try_except_else
    (t <- read df ;;
     df1 <- lift (set_index_unstack t (str id) (str key) (str value)) ;;
     df2 <- lift (groupby_first t (str id) (str key) (str value)) ;;
     ret (df1, df2))
    "An unexpected error occured while pre-processing"
    (λ p,
       log (LogInfo "Pre-processing done correctly") ;;
       r <- lift (merge_on_index p.1 p.2 (str id)) ;;
       alloc r).

Definition default_key : string := "Attribute Names".
Definition default_value : string := "Attribute Values".
Definition default_id : string := "ID".

(** ** [translate] *)

(** [Series.map(d)] on one cell: the keys of a JSON object are strings. *)
Definition map_dict (d : gmap string cell) (c : cell) : cell :=
  match c with
  | Some (VStr s) => default (None : cell) (d !! s)
  | _ => None
  end.

(** [Series.fillna(fill)] on one cell. *)
Definition fillna (fill : cell) (c : cell) : cell :=
  match c with
  | None => fill
  | Some _ => c
  end.

Definition translate_cell (d : gmap string cell) (fill : string) (c : cell) : cell :=
  fillna (str fill) (map_dict d c).

Definition is_lower (a : ascii) : bool :=
  ((97 <=? N_of_ascii a) && (N_of_ascii a <=? 122))%N.
Definition is_upper (a : ascii) : bool :=
  ((65 <=? N_of_ascii a) && (N_of_ascii a <=? 90))%N.
Definition upper_ascii (a : ascii) : ascii :=
  if is_lower a then ascii_of_N (N_of_ascii a - 32) else a.
Definition lower_ascii (a : ascii) : ascii :=
  if is_upper a then ascii_of_N (N_of_ascii a + 32) else a.

(** ASCII text: no byte above 127. *)
Fixpoint is_ascii (s : string) : bool :=
  match s with
  | EmptyString => true
  | String a s' => (N_of_ascii a <? 128)%N && is_ascii s'
  end.

(** [str.upper] on ASCII text. *)
Fixpoint upper (s : string) : string :=
  match s with
  | EmptyString => EmptyString
  | String a s' => String (upper_ascii a) (upper s')
  end.

(** [str.title] on ASCII text: a letter is upper-cased after a non-letter
    and lower-cased after a letter. *)
Fixpoint title_from (after_letter : bool) (s : string) : string :=
  match s with
  | EmptyString => EmptyString
  | String a s' =>
      String (if after_letter then lower_ascii a else upper_ascii a)
             (title_from (is_lower a || is_upper a) s')
  end.
Definition title (s : string) : string := title_from false s.

Definition default_trans_filepath : string := "./data/translations.json".
Definition default_translate_fill : string := "Other".

Definition translate (df : loc) (col trans_filepath fill : string)
  : world → outcome * world :=
  try_except_else
    (d <- load_json trans_filepath ;;
     t <- read df ;;
     s <- lift (get_col t (str col)) ;;
     write df (set_col t (str col)
                 (mkSeries Object (translate_cell d fill <$> s_values s))))
    "An unexpected error occured while normalizing colors"
    (λ _,
       log (LogInfo (title col +:+ " Translated correctly")) ;;
       ret df).

(** ** [normalize] *)

(** A value of the specification dict: [[old, new_type]] or
    [[old, new_type, f]] with a source column, [[None, new_type]] or
    [[None, new_type, default]] without one.  A transform is a Python
    function on a cell, which may raise. *)
Inductive entry : Type :=
  | FromSource (old : string) (new_type : dtype)
               (transform : option (cell → option cell))
  | NoSource (new_type : dtype) (default : option cell).

Definition default_normalize_fill : string := "null".

(** [Series.apply(f)]: [f] on every cell, in order; the first raise aborts. *)
Definition apply (f : cell → option cell) (s : Series) : option Series :=
  mkSeries Object <$> mapM f (s_values s).

Definition is_string (c : cell) : bool :=
  match c with
  | Some (VStr _) => true
  | _ => false
  end.

(** The dtype pandas infers for the cells of an object array
    ([maybe_convert_objects]): [float64] for numbers and missing entries,
    [object] as soon as a string is among them. *)
Definition infer_objects (vals : list cell) : dtype :=
  if forallb (λ c, negb (is_string c)) vals then Numeric "float64" else Object.

(** The cells after [fillna({k: fill})]: a dict addresses the ROWS of a
    series by their label, so only a missing cell in a row labelled [k] is
    filled. *)
Definition fill_rows (k : label) (fill : cell) (idx : list label)
    (vals : list cell) : list cell :=
  zip_with (λ l c, if decide (c = None ∧ l = k) then fill else c) idx vals.

(** [Series.fillna({k: fill}, inplace=True)].  pandas aligns the dict with
    the row index ([fill] stands at the rows labelled [k], NaN at the others)
    and puts it into the missing cells.
    - A series without missing cell is left as it is.
    - A categorical series only takes its categories: when a missing cell
      stands in a row labelled [k] and [fill] is none of them, the fill
      raises [TypeError]; the dtype stays categorical.
    - Any other series that has a missing cell comes back with the dtype
      pandas infers from its cells after the fill. *)
Definition fillna_dict (k : label) (fill : cell) (idx : list label)
    (s : Series) : option Series :=
  if decide (None ∈ s_values s) then
    let vals := fill_rows k fill idx (s_values s) in
    match s_dtype s with
    | Category =>
        if decide ((k, (None : cell)) ∈ zip idx (s_values s) ∧
                   fill ∉ s_values s)
        then None
        else Some (mkSeries Category vals)
    | _ => Some (mkSeries (infer_objects vals) vals)
    end
  else Some s.

Section Normalize.
(** The conversion of one cell to a numeric dtype, which belongs to numpy:
    [None] when it raises. *)
Variable to_numeric : string → cell → option cell.

Definition cast (ty : dtype) (c : cell) : option cell :=
  match ty with
  | Category | Object => Some c
  | Numeric tag => to_numeric tag c
  end.

(** [Series.astype(ty)] *)
Definition astype (ty : dtype) (s : Series) : option Series :=
  mkSeries ty <$> mapM (cast ty) (s_values s).

(** [df[new] = df[old].astype(ty)] *)
Definition assign_cast (df : loc) (new old : string) (ty : dtype) : M unit :=
  t <- read df ;;
  s <- lift (get_col t (str old)) ;;
  s' <- lift (astype ty s) ;;
  write df (set_col t (str new) s').

(** The body of the loop of [normalize] for one item of the dict. *)
Definition normalize_entry (df : loc) (fill : string) (new : string)
    (e : entry) : M unit :=
  match e with
  | FromSource old ty tf =>
      match tf with
      | Some f =>
          t <- read df ;;
          s <- lift (get_col t (str old)) ;;
          s' <- lift (apply f s) ;;
          write df (set_col t (str old) s') ;;
          assign_cast df new old ty
      | None => assign_cast df new old ty
      end ;;
      (if decide (new ≠ old) then
         t <- read df ;;
         t' <- lift (drop_col t (str old)) ;;
         write df t'
       else ret tt)
  | NoSource ty dflt =>
      match dflt with
      | Some v =>
          t <- read df ;;
          write df (set_col t (str new)
                      (mkSeries Object (replicate (length (df_index t)) v))) ;;
          assign_cast df new new ty
      | None => ret tt
      end
  end ;;
  t <- read df ;;
  s <- lift (get_col t (str new)) ;;
  s' <- lift (fillna_dict (str new) (str fill) (df_index t) s) ;;
  write df (set_col t (str new) s').

Fixpoint normalize_loop (df : loc) (fill : string)
    (items : list (string * entry)) : M unit :=
  match items with
  | [] => ret tt
  | (new, e) :: rest =>
      normalize_entry df fill new e ;; normalize_loop df fill rest
  end.

(** [col] holds the items of the specification dict in insertion order. *)
Definition normalize (df : loc) (col : list (string * entry)) (fill : string)
  : world → outcome * world :=
  try_except_else
    (normalize_loop df fill col)
    "An unexpected error occured while normalizing"
    (λ _, log (LogInfo "Normalization done correctly") ;; ret df).
End Normalize.

(** [lambda x: x.upper()]: raises on anything that is not a string. *)
Definition upper_transform (c : cell) : option cell :=
  match c with
  | Some (VStr s) => Some (str (upper s))
  | _ => None
  end.

(** ** [get_country_codes] *)

(** [Series.unique()]: the distinct cells in order of first appearance. *)
Definition unique (l : list cell) : list cell :=
  reverse (remove_dups (reverse l)).

Section Geocoder.
(** The geocoding service, as a function of the query. *)
Variable geocode : cell → response.

(** [geolocator.geocode(city, addressdetails=True)
      .raw["address"]["country_code"].upper()] *)
Definition country_code_of (city : cell) : M string :=
  λ w,
    let w' := mkWorld (heap w) (logs w) (files w) (geo_calls w ++ [city]) in
    match geocode city with
    | GeoAddress (Some cc) => (Some (upper cc), w')
    | _ => (None, w')
    end.

(** The loop that fills [city_dict]. *)
Fixpoint fill_city_dict (cities : list cell) (city_dict : list (cell * string))
  : M (list (cell * string)) :=
  match cities with
  | [] => ret city_dict
  | city :: rest =>
      code <- country_code_of city ;;
      fill_city_dict rest (set_assoc city code city_dict)
  end.

(** [Series.map(city_dict)] on one cell. *)
Definition map_city (city_dict : list (cell * string)) (c : cell) : cell :=
  match assoc c city_dict with
  | Some code => str code
  | None => None
  end.

Definition default_col_name : string := "country".

Definition get_country_codes (df : loc) (col col_name : string)
  : world → outcome * world :=
  try_except_else
    (t <- read df ;;
     s <- lift (get_col t (str col)) ;;
     city_dict <- fill_city_dict (unique (s_values s)) [] ;;
     t <- read df ;;
     s <- lift (get_col t (str col)) ;;
     write df (set_col t (str col_name)
                 (mkSeries Object (map_city city_dict <$> s_values s))))
    "An unexpected error occured while retrieving country codes form cities"
    (λ _, log (LogInfo "Country code extraction correctly") ;; ret df).
End Geocoder.

(** * Vocabulary of the properties, and example data *)

(** The passthrough columns of a long table: every column other than the
    ID, the key and the value column. *)
Definition passthrough (t : DataFrame) (key value id : string) : list label :=
  filter (λ c, c ∉ [str id; str key; str value]) (columns t).

(** [o] is a wide table for the long table [t]: one row per distinct ID (a
    row without ID has none), and the distinct keys and the passthrough
    columns as columns. *)
Definition wide_table_of (t : DataFrame) (key value id : string)
    (o : DataFrame) : Prop :=
  ∃ ids keys,
    get_col t (str id) = Some ids ∧
    get_col t (str key) = Some keys ∧
    NoDup (df_index o) ∧
    (∀ r, r ∈ df_index o ↔ r ≠ None ∧ r ∈ s_values ids) ∧
    (∀ c, c ∈ columns o ↔ c ∈ s_values keys ∨ c ∈ passthrough t key value id).

(** C1 in the spec's words: the call returns a table, and that table is a
    wide table for [t]. *)
Definition reshapes_to_wide (w : world) (df : loc) (t : DataFrame)
    (key value id : string) : Prop :=
  ∃ r w' o,
    pre_processing df key value id w = (Returned r, w') ∧
    heap w' !! r = Some o ∧
    wide_table_of t key value id o.

(** No key is also the label of the ID column or of a passthrough column. *)
Definition keys_apart (t : DataFrame) (key value : string) (keys : Series) : Prop :=
  Forall (λ c, c ∈ columns t → c = str key ∨ c = str value) (s_values keys).

#[global] Instance keys_apart_dec t key value keys :
  Decision (keys_apart t key value keys).
Proof. unfold keys_apart. apply _. Defined.

(** A small long table: two products, the first row of product 2 lacks its
    [MakeText]. *)
Definition long_example : DataFrame :=
  mkDF [int 0; int 1; int 2]
    [(str "ID", mkSeries (Numeric "int64") [int 2; int 1; int 2]);
     (str "Attribute Names", mkSeries Object [str "Color"; str "Color"; str "City"]);
     (str "Attribute Values", mkSeries Object [str "rood"; str "zwart"; str "Bern"]);
     (str "MakeText", mkSeries Object [None; str "BMW"; str "VW"])].

(** A long table with an attribute named like a passthrough column. *)
Definition long_collide : DataFrame :=
  mkDF [int 0]
    [(str "ID", mkSeries (Numeric "int64") [int 1]);
     (str "Attribute Names", mkSeries Object [str "City"]);
     (str "Attribute Values", mkSeries Object [str "Bern"]);
     (str "City", mkSeries Object [str "Zuzwil"])].

(** A long table that gives product 7 two mileages. *)
Definition long_twice : DataFrame :=
  mkDF [int 0; int 1]
    [(str "ID", mkSeries Object [int 7; int 7]);
     (str "Attribute Names", mkSeries Object [str "Km"; str "Km"]);
     (str "Attribute Values", mkSeries Object [int 10; int 20])].

(** The world that holds one table and nothing else. *)
Definition world_of (t : DataFrame) : world := mkWorld [t] [] ∅ [].

(** The spec's words: the value in the first row bearing the ID. *)
Definition first_row_value (g : label) (ids vals : list cell) (v : cell) : Prop :=
  ∃ i, ids !! i = Some g ∧ vals !! i = Some v ∧
       ∀ j, j < i → ids !! j ≠ Some g.

(** The first value that is present among the rows bearing the ID, missing
    only when all of them are. *)
Definition first_present_value (g : label) (ids vals : list cell) (v : cell)
  : Prop :=
  (v ≠ None ∧
   ∃ i, ids !! i = Some g ∧ vals !! i = Some v ∧
        ∀ j x, j < i → ids !! j = Some g → vals !! j = Some x → x = None)
  ∨ (v = None ∧ ∀ j x, ids !! j = Some g → vals !! j = Some x → x = None).

(** The wide table carries, for every passthrough column and every row of
    the result, the value [pick] selects among the input rows of that ID. *)
Definition carries (pick : label → list cell → list cell → cell → Prop)
    (w : world) (df : loc) (t : DataFrame) (key value id : string) : Prop :=
  ∃ r w' o ids,
    pre_processing df key value id w = (Returned r, w') ∧
    heap w' !! r = Some o ∧
    get_col t (str id) = Some ids ∧
    ∀ c s, c ∈ passthrough t key value id → get_col t c = Some s →
      ∃ s', get_col o c = Some s' ∧
        ∀ p g, df_index o !! p = Some g →
          ∃ v, s_values s' !! p = Some v ∧
               pick g (s_values ids) (s_values s) v.

(** The world with the table at [df] replaced. *)
Definition upd (df : loc) (t : DataFrame) (w : world) : world :=
  mkWorld (<[df := t]> (heap w)) (logs w) (files w) (geo_calls w).

Definition logged (r : log_record) (w : world) : world :=
  mkWorld (heap w) (logs w ++ [r]) (files w) (geo_calls w).

Definition translated (d : gmap string cell) (fill : string) (s : Series) : Series :=
  mkSeries Object (translate_cell d fill <$> s_values s).

(** The target set of a translation table. *)
Definition in_target_set (d : gmap string cell) (v : cell) : Prop :=
  ∃ k, d !! k = Some v.

(** Every target of the table, and the fallback, translates to itself. *)
Definition translation_fixed (d : gmap string cell) (fill : string) : Prop :=
  map_Forall (λ _ v, v = None ∨ translate_cell d fill v = v) d ∧
  translate_cell d fill (str fill) = str fill.

#[global] Instance translation_fixed_dec d fill : Decision (translation_fixed d fill).
Proof. unfold translation_fixed. apply _. Defined.

(** Translating the table at [df] once more leaves the column as it is. *)
Definition retranslation_stable (w1 : world) (df : loc) (col path fill : string)
  : Prop :=
  ∃ w2 t1 t2,
    translate df col path fill w1 = (Returned df, w2) ∧
    heap w1 !! df = Some t1 ∧
    heap w2 !! df = Some t2 ∧
    get_col t2 (str col) = get_col t1 (str col).

Definition colours : DataFrame :=
  mkDF [int 0; int 1; int 2]
    [(str "BodyColorText", mkSeries Object [str "zwart"; str "paars"; None]);
     (str "Km", mkSeries (Numeric "int64") [int 10; int 20; int 30])].

Definition dutch : gmap string cell := {[ "zwart" := str "Black" ]}.

(** A table that also lists its targets and has no entry for the fallback. *)
Definition dutch_closed : gmap string cell :=
  {[ "zwart" := str "Black"; "Black" := str "Black" ]}.

Definition world_with (t : DataFrame) (path : string) (d : gmap string cell)
  : world :=
  mkWorld [t] [] {[ path := d ]} [].

(** The claim of C9 as the spec words it: the table object passed in is the
    same after the call. *)
Definition leaves_input_unchanged (w : world) (df : loc)
    (col path fill : string) : Prop :=
  heap (translate df col path fill w).2 !! df = heap w !! df.

(** The optional transform of a [FromSource] entry. *)
Definition transformed (tf : option (cell → option cell)) (s : Series)
  : option Series :=
  match tf with
  | Some f => apply f s
  | None => Some s
  end.

(** The last statement of the loop body. *)
Definition fill_step (df : loc) (fill new : string) : M unit :=
  t <- read df ;;
  s <- lift (get_col t (str new)) ;;
  s' <- lift (fillna_dict (str new) (str fill) (df_index t) s) ;;
  write df (set_col t (str new) s').

(** The table after the transform of a [FromSource] entry. *)
Definition after_transform (t : DataFrame) (old : string)
    (tf : option (cell → option cell)) (s1 : Series) : DataFrame :=
  match tf with
  | Some _ => set_col t (str old) s1
  | None => t
  end.

(** The table a [FromSource] entry has built before the fill: the cast
    column [s2] stands under the target name and a source column of another
    name is dropped. *)
Definition before_fill (t : DataFrame) (new old : string)
    (tf : option (cell → option cell)) (s1 s2 : Series) : DataFrame :=
  let t2 := set_col (after_transform t old tf s1) (str new) s2 in
  if decide (new ≠ old)
  then mkDF (df_index t2) (filter (λ p, p.1 ≠ str old) (df_columns t2))
  else t2.

(** The table after a successful [FromSource] entry, [s3] being the target
    column after the fill. *)
Definition after_source_entry (t : DataFrame) (new old : string)
    (tf : option (cell → option cell)) (s1 s2 s3 : Series) : DataFrame :=
  set_col (before_fill t new old tf s1 s2) (str new) s3.

Fixpoint no_lower (x : string) : bool :=
  match x with
  | EmptyString => true
  | String a x' => negb (is_lower a) && no_lower x'
  end.

Fixpoint has_letter (x : string) : bool :=
  match x with
  | EmptyString => false
  | String a x' => is_lower a || is_upper a || has_letter x'
  end.

Fixpoint has_upper (x : string) : bool :=
  match x with
  | EmptyString => false
  | String a x' => is_upper a || has_upper x'
  end.

(** [str.isupper] on ASCII text: no lower-case letter, and at least one
    upper-case one. *)
Definition isupper (x : string) : bool := no_lower x && has_upper x.

(** A cell whose text, if it holds one, is ASCII. *)
Definition ascii_cell (c : cell) : bool :=
  match c with
  | Some (VStr x) => is_ascii x
  | _ => true
  end.

(** [v] is the cell [c], a string, upper-cased. *)
Definition upper_of (c v : cell) : Prop :=
  ∃ x, c = str x ∧ v = str (upper x).

(** A cell that holds an upper-cased string: it has no lower-case letter,
    [upper] leaves it alone, and it is fully upper-case for Python
    ([isupper]) exactly when it holds a letter. *)
Definition upper_cased (v : cell) : Prop :=
  ∃ x, v = str x ∧ no_lower x = true ∧ upper x = x ∧
       isupper x = has_letter x.

(** The last sentence of C4 in the spec's words, for the table at [df] in
    [w]: every value of the column [new] is fully upper-case. *)
Definition target_fully_upper (w : world) (df : loc) (new : string) : Prop :=
  ∃ t' s', heap w !! df = Some t' ∧ get_col t' (str new) = Some s' ∧
           Forall (λ v, ∃ x, v = str x ∧ isupper x = true) (s_values s').

(** Colours given by name or by their RAL number. *)
Definition colour_codes : DataFrame :=
  mkDF [int 1; int 2]
    [(str "BodyColorText", mkSeries Object [str "Black"; str "9005"])].


(** A categorical column cannot take the fill: a missing cell stands in a
    row labelled [k], and [fill] is none of the categories. *)
Definition refuses_fill (k : label) (fill : cell) (idx : list label)
    (s : Series) : Prop :=
  s_dtype s = Category ∧ (k, (None : cell)) ∈ zip idx (s_values s) ∧
  fill ∉ s_values s.

#[global] Instance refuses_fill_dec k fill idx s :
  Decision (refuses_fill k fill idx s).
Proof. unfold refuses_fill. apply _. Defined.


Definition translated_colours : DataFrame :=
  mkDF [int 1; int 2]
    [(str "BodyColorText", mkSeries Object [str "Black"; str "Other"]);
     (str "Km", mkSeries Object [int 10; None])].

(** A numeric conversion to run the examples with: numbers convert, all
    else raises. *)
Definition numbers_only (tag : string) (c : cell) : option cell :=
  match c with
  | Some (VInt z) => Some (int z)
  | _ => None
  end.

(** The world after the geocoder has been sent the queries [cs]. *)
Definition called (cs : list cell) (w : world) : world :=
  mkWorld (heap w) (logs w) (files w) (geo_calls w ++ cs).

(** The code a query resolves to, when it does. *)
Definition code_of (geocode : cell → response) (c : cell) : option string :=
  match geocode c with
  | GeoAddress (Some cc) => Some (upper cc)
  | _ => None
  end.

Definition cities : DataFrame :=
  mkDF [int 1; int 2; int 3]
    [(str "City", mkSeries Object [str "Zuzwil"; str "Wien"; str "Zuzwil"])].

(** A geocoder that knows two places. *)
Definition two_places (c : cell) : response :=
  match c with
  | Some (VStr "Zuzwil") => GeoAddress (Some "ch")
  | Some (VStr "Wien") => GeoAddress (Some "at")
  | Some _ => GeoNone
  | None => GeoError
  end.

(** A geocoder that only knows the first of them. *)
Definition one_place (c : cell) : response :=
  match c with
  | Some (VStr "Zuzwil") => GeoAddress (Some "ch")
  | Some _ => GeoNone
  | None => GeoError
  end.

(** [w'] differs from [w] at most in the table at [df]. *)
Definition same_but (df : loc) (w w' : world) : Prop :=
  logs w' = logs w ∧ files w' = files w ∧ geo_calls w' = geo_calls w ∧
  ∀ l, l ≠ df → heap w' !! l = heap w !! l.

Definition frames {A : Type} (df : loc) (m : M A) : Prop :=
  ∀ w, same_but df w (m w).2.

(** C8 as the spec words it, for one call [op] in the world [w]: the call
    does not raise, and when it returns [None] the failure has been logged
    and nothing of it is left in the store. *)
Definition all_or_nothing (op : world → outcome * world) (w : world) : Prop :=
  (op w).1 ≠ Raised ∧
  ((op w).1 = ReturnedNone →
   heap (op w).2 = heap w ∧
   ∃ msg, logs (op w).2 = logs w ++ [LogException msg]).

(** A long table with an attribute named like the ID column. *)
Definition long_id_key : DataFrame :=
  mkDF [int 0; int 1]
    [(str "ID", mkSeries Object [int 7; int 7]);
     (str "Attribute Names", mkSeries Object [str "Km"; str "ID"]);
     (str "Attribute Values", mkSeries Object [int 10; int 20])].

(** A computation keeps the table at [df] well formed, with the rows it
    has, whether it returns or raises. *)
Definition keeps_wf {A : Type} (df : loc) (m : M A) : Prop :=
  ∀ w t, df < length (heap w) → wf_df t →
    ∃ o t', m (upd df t w) = (o, upd df t' w) ∧
            wf_df t' ∧ df_index t' = df_index t.

(** In the world [w'] the object [df] is a well-formed table with the row
    index of [t]. *)
Definition still_wf (df : loc) (t : DataFrame) (w' : world) : Prop :=
  ∃ t', heap w' !! df = Some t' ∧ wf_df t' ∧ df_index t' = df_index t.

(** A cell a JSON table of translations can hold as target when the
    targets are strings: a string or [null]. *)
Definition text_or_null (v : cell) : bool :=
  match v with
  | Some (VInt _) => false
  | _ => true
  end.

(** ** The driver, from the reshape to the normalization *)

(** The makes the driver keeps as they are written. *)
Definition listed_makes : list string :=
  ["RUF"; "NSU"; "BMW"; "VW"; "MG"; "PGO"; "MINI"; "AGM"].

(** [lambda x: x.title() if x not in [...] else x] *)
Definition make_transform (c : cell) : option cell :=
  match c with
  | Some (VStr x) =>
      Some (str (if decide (x ∈ listed_makes) then x else title x))
  | _ => None
  end.

(** [len(x.split(" ")) > 1]: the string holds a space. *)
Fixpoint has_space (x : string) : bool :=
  match x with
  | EmptyString => false
  | String a x' => if Ascii.eqb a " " then true else has_space x'
  end.

(** [lambda x: "l_km_consumption" if len(x.split(" ")) > 1 else "null"] *)
Definition fuel_transform (c : cell) : option cell :=
  match c with
  | Some (VStr x) =>
      Some (str (if has_space x then "l_km_consumption" else "null"))
  | _ => None
  end.

(** [norm_dict], in the order it is written. *)
Definition norm_dict : list (string * entry) :=
  [("carType", FromSource "BodyTypeText" Category None);
   ("color", FromSource "BodyColorText" Category None);
   ("condition", FromSource "ConditionTypeText" Category None);
   ("currency", NoSource Category (Some (str "null")));
   ("drive", NoSource Category (Some (str "null")));
   ("city", FromSource "City" Category None);
   ("country", FromSource "country" Category None);
   ("make", FromSource "MakeText" Category (Some make_transform));
   ("manufacture_year", FromSource "FirstRegYear" (Numeric "h") None);
   ("mileage", FromSource "Km" (Numeric "float32") None);
   ("mileage_unit", NoSource Category (Some (str "kilometer")));
   ("model", FromSource "ModelText" Object None);
   ("model_variant", FromSource "TypeName" Object None);
   ("price_on_request", NoSource Category (Some (str "false")));
   ("type", NoSource Category (Some (str "car")));
   ("zip", NoSource Category (Some (str "null")));
   ("manufacture_month", FromSource "FirstRegMonth" (Numeric "h") None);
   ("fuel_consumption_unit",
    FromSource "ConsumptionTotalText" Category (Some fuel_transform))].

(** [pre.copy(deep=True)]: a new object with the same contents. *)
Definition copy_deep (src : loc) : M loc :=
  t <- read src ;; alloc t.

(** A function of the module called with [None] for its table: the first
    use of the table ([df[col]], [df[new] = ...]) raises inside the [try],
    so the handler logs [msg] and the function returns [None]. *)
Definition on_none (msg : string) : world → outcome * world :=
  try_except_else (raise (A := unit)) msg (λ _, ret 0).

(** One stage of the driver, [norm = op(norm, ...)], run on what the stage
    before it returned. *)
Definition stage (op : loc → world → outcome * world) (msg : string)
    (arg : outcome * world) : outcome * world :=
  match arg with
  | (Returned l, w) => op l w
  | (ReturnedNone, w) => on_none msg w
  | (Raised, w) => (Raised, w)
  end.

(** The normalization chain of the driver on the copy [norm]. *)
Definition normalization_chain (to_numeric : string → cell → option cell)
    (geocode : cell → response) (norm : loc) (w : world) : outcome * world :=
  stage (λ l, normalize to_numeric l norm_dict default_normalize_fill)
    "An unexpected error occured while normalizing"
    (stage (λ l, get_country_codes geocode l "City" default_col_name)
       "An unexpected error occured while retrieving country codes form cities"
       (stage (λ l, translate l "ConditionTypeText" default_trans_filepath
                      default_translate_fill)
          "An unexpected error occured while normalizing colors"
          (stage (λ l, translate l "BodyTypeText" default_trans_filepath
                         default_translate_fill)
             "An unexpected error occured while normalizing colors"
             (translate norm "BodyColorText" default_trans_filepath
                default_translate_fill w)))).

(** The driver from [pre = pre_processing(data)] to
    [norm = normalize(norm, norm_dict)].  Nothing catches an exception of
    these lines themselves: [pre.copy] raises when [pre] is [None]. *)
Definition wrangle (to_numeric : string → cell → option cell)
    (geocode : cell → response) (data : loc) (w : world) : outcome * world :=
  match pre_processing data default_key default_value default_id w with
  | (Returned pre, w1) =>
      match copy_deep pre w1 with
      | (Some norm, w2) => normalization_chain to_numeric geocode norm w2
      | (None, w2) => (Raised, w2)
      end
  | (_, w1) => (Raised, w1)
  end.

(** Every object of the store but [df] is in [w'] what it is in [w]. *)
Definition others_kept (df : loc) (w w' : world) : Prop :=
  ∀ l, l ≠ df → heap w' !! l = heap w !! l.

(** A computation that touches no object of the store but [df]. *)
Definition keeps_others {A : Type} (df : loc) (m : M A) : Prop :=
  ∀ w, others_kept df w (m w).2.

(** What a stage of the chain on [norm] hands on: [norm] itself or [None],
    in a world where only [norm] may differ from [w]. *)
Definition chain_state (norm : loc) (w : world) (st : outcome * world) : Prop :=
  (st.1 = Returned norm ∨ st.1 = ReturnedNone) ∧ others_kept norm w st.2.

(** An entry of the specification dict takes the column labelled [c] away:
    it reads [c] as its source and stores it under another name
    ([df.drop(columns=old_column_name)]). *)
Definition consumes (c : label) (p : string * entry) : Prop :=
  match p.2 with
  | FromSource old _ _ => c = str old ∧ p.1 ≠ old
  | NoSource _ _ => False
  end.

#[global] Instance consumes_dec c p : Decision (consumes c p).
Proof. unfold consumes. destruct (p.2); apply _. Defined.

(** The labels a table that had the columns of [t] has after the entries
    [col] ran through: the keys of [col] that no later entry takes away,
    and the labels of [t] that no entry takes away. *)
Definition final_label (col : list (string * entry)) (t : DataFrame)
    (c : label) : Prop :=
  (∃ a new e b, col = a ++ (new, e) :: b ∧ c = str new ∧
                ∀ p, p ∈ b → ¬ consumes c p) ∨
  (c ∈ columns t ∧ ∀ p, p ∈ col → ¬ consumes c p).

(** The source columns [norm_dict] renames. *)
Definition renamed_sources (col : list (string * entry)) : list string :=
  omap (λ p, match p.2 with
             | FromSource old _ _ =>
                 if decide (p.1 ≠ old) then Some old else None
             | NoSource _ _ => None
             end) col.

(** A reshaped and translated table with one car, holding every column
    [norm_dict] reads. *)
Definition one_car : DataFrame :=
  mkDF [int 0]
    [(str "ID", mkSeries (Numeric "int64") [int 1]);
     (str "BodyTypeText", mkSeries Object [str "Coupe"]);
     (str "BodyColorText", mkSeries Object [str "Black"]);
     (str "ConditionTypeText", mkSeries Object [str "Used"]);
     (str "City", mkSeries Object [str "Zuzwil"]);
     (str "country", mkSeries Object [str "CH"]);
     (str "MakeText", mkSeries Object [str "MERCEDES-BENZ"]);
     (str "FirstRegYear", mkSeries (Numeric "int64") [int 1999]);
     (str "Km", mkSeries (Numeric "int64") [int 31900]);
     (str "ModelText", mkSeries Object [str "SLK 200"]);
     (str "TypeName", mkSeries Object [str "SLK 200 Kompressor"]);
     (str "FirstRegMonth", mkSeries (Numeric "int64") [int 4]);
     (str "ConsumptionTotalText", mkSeries Object [str "9.8 l/100km"])].

(** * Properties *)

(** ** Labelled columns *)

Section Assoc.
Context {A : Type}.
Implicit Types (c : label) (cols : list (label * A)).

Lemma assoc_Some_elem c cols a : assoc c cols = Some a → (c, a) ∈ cols.
Proof.
  induction cols as [|[c' a'] cols IH]; simpl; [done|].
  case_decide as Hc.
  - intros [= ->]. rewrite Hc. left.
  - intros Ha. right. auto.
Qed.

Lemma assoc_None c cols : assoc c cols = None ↔ c ∉ cols.*1.
Proof.
  induction cols as [|[c' a'] cols IH]; simpl.
  - split; [intros _; apply not_elem_of_nil | done].
  - rewrite not_elem_of_cons. destruct (decide (c' = c)) as [->|Hne].
    + split; [done | intros [? _]; done].
    + rewrite IH. split; [intros ?; split; done | intros [_ ?]; done].
Qed.

Lemma assoc_is_Some c cols : is_Some (assoc c cols) ↔ c ∈ cols.*1.
Proof.
  rewrite <- not_eq_None_Some, assoc_None.
  destruct (decide (c ∈ cols.*1)); naive_solver.
Qed.

Lemma assoc_filter (Q : label * A → Prop) `{∀ p, Decision (Q p)} c cols :
  (∀ a, Q (c, a)) → assoc c (filter Q cols) = assoc c cols.
Proof.
  intros HQ. induction cols as [|[c' a'] cols IH]; simpl; [done|].
  rewrite filter_cons. destruct (decide (Q (c', a'))) as [Hq|Hq]; simpl.
  - by rewrite IH.
  - destruct (decide (c' = c)) as [->|]; [|done]. by destruct Hq.
Qed.

Lemma elem_of_fst_filter (Q : label * A → Prop) `{∀ p, Decision (Q p)} c cols :
  c ∈ (filter Q cols).*1 ↔ ∃ a, Q (c, a) ∧ (c, a) ∈ cols.
Proof.
  rewrite list_elem_of_fmap. split.
  - intros ([c' a] & -> & Hin). apply list_elem_of_filter in Hin. by exists a.
  - intros (a & Hq & Hin). exists (c, a). split; [done|].
    by apply list_elem_of_filter.
Qed.

Lemma assoc_filter_None (Q : label * A → Prop) `{∀ p, Decision (Q p)} c cols :
  (∀ a, ¬ Q (c, a)) → assoc c (filter Q cols) = None.
Proof.
  intros HQ. apply assoc_None. rewrite elem_of_fst_filter.
  intros (a & Hq & _). by apply (HQ a).
Qed.

Lemma assoc_set_assoc c c' a cols :
  assoc c' (set_assoc c a cols) = if decide (c = c') then Some a else assoc c' cols.
Proof.
  induction cols as [|[c0 a0] cols IH]; simpl.
  - done.
  - destruct (decide (c0 = c)) as [->|Hne]; simpl.
    + repeat case_decide; congruence.
    + rewrite IH. repeat case_decide; congruence.
Qed.

Lemma fst_set_assoc c a cols :
  (set_assoc c a cols).*1 = if decide (c ∈ cols.*1) then cols.*1 else cols.*1 ++ [c].
Proof.
  induction cols as [|[c0 a0] cols IH]; [done|]. cbn [set_assoc].
  destruct (decide (c0 = c)) as [->|Hne].
  - rewrite !fmap_cons; simpl. rewrite decide_True; [done | left].
  - rewrite !fmap_cons; simpl.
    rewrite IH. destruct (decide (c ∈ cols.*1)).
    + rewrite decide_True; [done | by right].
    + rewrite decide_False; [done|]. rewrite not_elem_of_cons. done.
Qed.

Lemma set_assoc_set_assoc c a b cols :
  set_assoc c a (set_assoc c b cols) = set_assoc c a cols.
Proof.
  induction cols as [|[c0 a0] cols IH]; simpl.
  - by rewrite decide_True.
  - destruct (decide (c0 = c)) as [->|Hne]; simpl.
    + by rewrite decide_True.
    + rewrite decide_False by done. by rewrite IH.
Qed.

Lemma assoc_fmap_snd {B : Type} (f : label * A → B) c cols :
  assoc c ((λ p, (p.1, f p)) <$> cols) =
  match assoc c cols with Some a => Some (f (c, a)) | None => None end.
Proof.
  induction cols as [|[c0 a0] cols IH]; simpl; [done|].
  case_decide; subst; [done | apply IH].
Qed.
End Assoc.

Lemma elem_of_sort_uniq x l : x ∈ sort_uniq l ↔ x ∈ l.
Proof. unfold sort_uniq. by rewrite merge_sort_Permutation, elem_of_remove_dups. Qed.

Lemma NoDup_sort_uniq l : NoDup (sort_uniq l).
Proof. unfold sort_uniq. rewrite merge_sort_Permutation. apply NoDup_remove_dups. Qed.

Lemma elem_of_unique x l : x ∈ unique l ↔ x ∈ l.
Proof. unfold unique. by rewrite elem_of_reverse, elem_of_remove_dups, elem_of_reverse. Qed.


(** ** The inner join of two row indexes *)

Lemma elem_of_positions l idx k j :
  j ∈ positions l idx k ↔ (k ≤ j)%nat ∧ idx !! (j - k)%nat = Some l.
Proof.
  revert k. induction idx as [|x xs IH]; intros k; simpl.
  - rewrite elem_of_nil. split; [done | intros [_ ?]; done].
  - assert (Hstep : j ∈ positions l xs (S k) ↔
                    (k < j)%nat ∧ (x :: xs) !! (j - k)%nat = Some l).
    { rewrite IH. split.
      - intros [Hle Hl]. split; [lia|].
        replace (j - k)%nat with (S (j - S k)) by lia. done.
      - intros [Hlt Hl]. split; [lia|].
        replace (j - k)%nat with (S (j - S k)) in Hl by lia. done. }
    destruct (decide (x = l)) as [->|Hne].
    + rewrite elem_of_cons, Hstep. split.
      * intros [->|[Hlt Hl]]; [|split; [lia | done]].
        split; [lia|]. by rewrite Nat.sub_diag.
      * intros [Hle Hl]. destruct (decide (j = k)) as [->|]; [by left|].
        right. split; [lia | done].
    + rewrite Hstep. split.
      * intros [Hlt Hl]. split; [lia | done].
      * intros [Hle Hl]. split; [|done].
        destruct (decide (j = k)) as [->|]; [|lia].
        rewrite Nat.sub_diag in Hl. simpl in Hl. congruence.
Qed.

Lemma elem_of_join_positions lidx ridx k i j :
  (i, j) ∈ join_positions lidx ridx k →
  ∃ l, (k ≤ i)%nat ∧ lidx !! (i - k)%nat = Some l ∧ ridx !! j = Some l.
Proof.
  revert k. induction lidx as [|l ls IH]; intros k; simpl.
  - by rewrite elem_of_nil.
  - rewrite elem_of_app. intros [Hin|Hin].
    + apply list_elem_of_fmap in Hin as (j' & [= -> ->] & Hj).
      apply elem_of_positions in Hj as [_ Hj]. rewrite Nat.sub_0_r in Hj.
      exists l. rewrite Nat.sub_diag. done.
    + apply IH in Hin as (l' & Hle & Hl & Hr). exists l'.
      split; [lia|]. split; [|done].
      replace (i - k)%nat with (S (i - S k)) by lia. done.
Qed.

Lemma length_positions_NoDup l idx k :
  NoDup idx → length (positions l idx k) = if decide (l ∈ idx) then 1%nat else 0%nat.
Proof.
  intros Hnd. revert k.
  induction Hnd as [|x xs Hx Hnd IH]; intros k; cbn [positions].
  - by rewrite decide_False by apply not_elem_of_nil.
  - destruct (decide (x = l)) as [->|Hne]; cbn [length].
    + rewrite IH, (decide_False (P := l ∈ xs)) by done.
      rewrite decide_True; [done | left].
    + rewrite IH. destruct (decide (l ∈ xs)).
      * rewrite decide_True; [done | by right].
      * rewrite decide_False; [done|]. rewrite not_elem_of_cons. done.
Qed.

Lemma take_rows_replicate n k (vals : list cell) v :
  vals !! k = Some v → take_rows (replicate n k) vals = replicate n v.
Proof.
  intros Hk. unfold take_rows. rewrite fmap_replicate. by rewrite Hk.
Qed.

Lemma fst_pair_fmap (k : nat) (ps : list nat) :
  (pair k <$> ps).*1 = replicate (length ps) k.
Proof. induction ps as [|p ps IH]; [done|]. rewrite !fmap_cons. simpl. by f_equal. Qed.

Lemma join_left_labels pre lidx ridx :
  take_rows (join_positions lidx ridx (length pre)).*1 (pre ++ lidx) =
  lidx ≫= (λ l, replicate (length (positions l ridx 0)) l).
Proof.
  revert pre. induction lidx as [|l ls IH]; intros pre; [done|].
  cbn [join_positions]. rewrite fmap_app. unfold take_rows at 1.
  rewrite fmap_app. fold (take_rows ((pair (length pre) <$> positions l ridx 0).*1) (pre ++ l :: ls)).
  fold (take_rows (join_positions ls ridx (S (length pre))).*1 (pre ++ l :: ls)).
  rewrite bind_cons. f_equal.
  - rewrite fst_pair_fmap. apply take_rows_replicate.
    rewrite lookup_app_r by apply Nat.le_refl. by rewrite Nat.sub_diag.
  - specialize (IH (pre ++ [l])). rewrite length_app in IH. simpl in IH.
    rewrite Nat.add_1_r, <- app_assoc in IH. done.
Qed.

Lemma join_left_labels_NoDup lidx ridx :
  NoDup ridx →
  take_rows (join_positions lidx ridx 0).*1 lidx = filter (λ l, l ∈ ridx) lidx.
Proof.
  intros Hnd. pose proof (join_left_labels [] lidx ridx) as Heq.
  simpl in Heq. rewrite Heq. clear Heq.
  induction lidx as [|l ls IH]; [done|].
  rewrite bind_cons, filter_cons, IH, length_positions_NoDup by done.
  by destruct (decide (l ∈ ridx)).
Qed.


Lemma lookup_take_rows ps vals p :
  take_rows ps vals !! p = (λ i, default (None : cell) (vals !! i)) <$> ps !! p.
Proof. unfold take_rows. by rewrite list_lookup_fmap. Qed.

(** ** [pre_processing] *)

Lemma fst_fmap_label {A B : Type} (f : label * A → B) (cols : list (label * A)) :
  ((λ p, (p.1, f p)) <$> cols).*1 = cols.*1.
Proof. induction cols as [|p cols IH]; [done|]. rewrite !fmap_cons. by f_equal. Qed.

Lemma fst_fmap_self {B : Type} (f : label → B) (l : list label) :
  ((λ c, (c, f c)) <$> l).*1 = l.
Proof. induction l as [|c l IH]; [done|]. rewrite !fmap_cons. by f_equal. Qed.


Lemma assoc_app {A : Type} c (l1 l2 : list (label * A)) :
  assoc c (l1 ++ l2) = match assoc c l1 with Some a => Some a | None => assoc c l2 end.
Proof.
  induction l1 as [|[c' a] l1 IH]; [done|]. simpl.
  by destruct (decide (c' = c)).
Qed.

(** What a run of [pre_processing] does, step by step. *)
Lemma pre_processing_run w df t key value id :
  heap w !! df = Some t →
  pre_processing df key value id w =
  match set_index_unstack t (str id) (str key) (str value),
        groupby_first t (str id) (str key) (str value) with
  | Some df1, Some df2 =>
      match merge_on_index df1 df2 (str id) with
      | Some r =>
          (Returned (length (heap w)),
           mkWorld (heap w ++ [r])
             (logs w ++ [LogInfo "Pre-processing done correctly"])
             (files w) (geo_calls w))
      | None =>
          (Raised,
           mkWorld (heap w)
             (logs w ++ [LogInfo "Pre-processing done correctly"])
             (files w) (geo_calls w))
      end
  | _, _ =>
      (ReturnedNone,
       mkWorld (heap w)
         (logs w ++ [LogException "An unexpected error occured while pre-processing"])
         (files w) (geo_calls w))
  end.
Proof.
  intros Ht. unfold pre_processing, try_except_else, bind, read, lift, ret.
  rewrite Ht.
  destruct (set_index_unstack _ _ _ _) as [df1|]; [|done].
  destruct (groupby_first _ _ _ _) as [df2|]; [|done].
  simpl. by destruct (merge_on_index _ _ _).
Qed.

Lemma drop_col_Some t c :
  c ∈ columns t →
  drop_col t c = Some (mkDF (df_index t) (filter (λ p, p.1 ≠ c) (df_columns t))).
Proof. intros Hc. unfold drop_col. by case_decide. Qed.


Lemma set_index_unstack_Some t id key value ids keys vals :
  get_col t id = Some ids →
  get_col t key = Some keys →
  get_col t value = Some vals →
  value ≠ id → value ≠ key →
  NoDup (zip (s_values ids) (s_values keys)) →
  set_index_unstack t id key value =
  Some (mkDF (sort_uniq (s_values ids))
          ((λ c, (c, mkSeries (s_dtype vals)
                       ((λ r, pivot_cell r c (s_values ids) (s_values keys)
                                         (s_values vals))
                          <$> sort_uniq (s_values ids))))
             <$> sort_uniq (s_values keys))).
Proof.
  intros Hid Hkey Hval Hvi Hvk Hnd. unfold set_index_unstack.
  rewrite Hid, Hkey. simpl.
  assert (Hin_id : id ∈ columns t).
  { apply assoc_is_Some. by eexists. }
  assert (Hin_key : key ∈ columns t).
  { apply assoc_is_Some. by eexists. }
  rewrite (drop_col_Some t id) by done. simpl.
  assert (Hrest : ∀ d, (if decide (key = id) then Some (mkDF (df_index t)
                            (filter (λ p, p.1 ≠ id) (df_columns t)))
                        else drop_col (mkDF (df_index t)
                            (filter (λ p, p.1 ≠ id) (df_columns t))) key) = Some d →
                  get_col d value = Some vals).
  { intros d. destruct (decide (key = id)) as [->|Hne].
    - intros [= <-]. unfold get_col. cbn [df_columns].
      by rewrite assoc_filter.
    - unfold drop_col. case_decide; [|done]. intros [= <-].
      unfold get_col. cbn [df_columns].
      by rewrite !assoc_filter. }
  destruct (if decide (key = id) then _ else _) as [d|] eqn:Hd.
  - simpl. rewrite (Hrest d eq_refl). simpl. by rewrite decide_True.
  - exfalso. destruct (decide (key = id)) as [->|Hne]; [done|].
    unfold drop_col in Hd. case_decide as Hk; [done|]. apply Hk.
    unfold columns. cbn [df_columns]. apply elem_of_fst_filter.
    apply assoc_Some_elem in Hkey. by exists keys.
Qed.

Lemma groupby_first_Some t id key value ids :
  get_col t id = Some ids →
  id ≠ key → id ≠ value →
  groupby_first t id key value =
  Some (mkDF (sort_uniq (filter (λ c, c ≠ None) (s_values ids)))
          ((λ p, (p.1, mkSeries (s_dtype p.2)
                         ((λ g, first_valid g (s_values ids) (s_values p.2))
                            <$> sort_uniq (filter (λ c, c ≠ None) (s_values ids)))))
             <$> filter (λ p, p.1 ≠ id)
                   (filter (λ p, p.1 ∉ [key; value]) (df_columns t)))).
Proof.
  intros Hid Hik Hiv. unfold groupby_first.
  rewrite assoc_filter.
  - unfold get_col in Hid. rewrite Hid. done.
  - intros a. simpl. rewrite !not_elem_of_cons.
    split_and!; [done..|apply not_elem_of_nil].
Qed.

Lemma merge_on_index_disjoint left right id :
  id ∉ columns left → id ∉ columns right →
  (∀ c, c ∈ columns left → c ∉ columns right) →
  merge_on_index left right id =
  let jp := join_positions (df_index left) (df_index right) 0 in
  Some (mkDF (take_rows jp.*1 (df_index left))
          (((λ p, (p.1, mkSeries (s_dtype p.2) (take_rows jp.*1 (s_values p.2))))
              <$> df_columns left)
           ++
           ((λ p, (p.1, mkSeries (s_dtype p.2) (take_rows jp.*2 (s_values p.2))))
              <$> df_columns right))).
Proof.
  intros Hl Hr Hdisj. unfold merge_on_index.
  rewrite decide_False by (intros [?|?]; done). simpl. do 3 f_equal.
  - apply list_fmap_ext. intros i [c s] Hi. simpl. f_equal.
    unfold add_suffix. rewrite decide_False; [done|].
    apply Hdisj. unfold columns. apply list_elem_of_fmap.
    exists (c, s). split; [done|]. by eapply list_elem_of_lookup_2.
  - apply list_fmap_ext. intros i [c s] Hi. simpl. f_equal.
    unfold add_suffix. rewrite decide_False; [done|].
    intros Hc. apply (Hdisj c Hc). unfold columns. apply list_elem_of_fmap.
    exists (c, s). split; [done|]. by eapply list_elem_of_lookup_2.
Qed.

Lemma str_inj a b : str a = str b → a = b.
Proof. by intros [= ->]. Qed.

Lemma elem_of_carried_columns (t : DataFrame) (key value id : string) c :
  c ∈ (filter (λ p : label * Series, p.1 ≠ str id)
         (filter (λ p : label * Series, p.1 ∉ [str key; str value])
            (df_columns t))).*1 ↔
  c ∈ passthrough t key value id.
Proof.
  unfold passthrough. rewrite elem_of_fst_filter, list_elem_of_filter.
  unfold columns. rewrite list_elem_of_fmap. simpl.
  rewrite !not_elem_of_cons. split.
  - intros (a & Hne & Hin). apply list_elem_of_filter in Hin as [Hkv Hin].
    simpl in Hkv. rewrite !not_elem_of_cons in Hkv.
    split; [tauto|]. by exists (c, a).
  - intros ((? & ? & ? & _) & [c' a] & -> & Hin). exists a. split; [done|].
    apply list_elem_of_filter. split; [|done]. simpl.
    rewrite !not_elem_of_cons. split_and!; [done..|apply not_elem_of_nil].
Qed.

(** The table [pre_processing] builds when the pairs are unique and no key
    collides with a column label. *)
Lemma pre_processing_result w df t key value id ids keys vals :
  heap w !! df = Some t →
  get_col t (str id) = Some ids →
  get_col t (str key) = Some keys →
  get_col t (str value) = Some vals →
  id ≠ key → id ≠ value → key ≠ value →
  NoDup (zip (s_values ids) (s_values keys)) →
  keys_apart t key value keys →
  let lidx := sort_uniq (s_values ids) in
  let ridx := sort_uniq (filter (λ c, c ≠ None) (s_values ids)) in
  let jp := join_positions lidx ridx 0 in
  let o :=
    mkDF (take_rows jp.*1 lidx)
      (((λ c, (c, mkSeries (s_dtype vals)
                    (take_rows jp.*1
                       ((λ r, pivot_cell r c (s_values ids) (s_values keys)
                                         (s_values vals)) <$> lidx))))
          <$> sort_uniq (s_values keys))
       ++
       ((λ p, (p.1, mkSeries (s_dtype p.2)
                      (take_rows jp.*2
                         ((λ g, first_valid g (s_values ids) (s_values p.2))
                            <$> ridx))))
          <$> filter (λ p, p.1 ≠ str id)
                (filter (λ p, p.1 ∉ [str key; str value]) (df_columns t)))) in
  pre_processing df key value id w =
  (Returned (length (heap w)),
   mkWorld (heap w ++ [o])
     (logs w ++ [LogInfo "Pre-processing done correctly"])
     (files w) (geo_calls w)).
Proof.
  intros Ht Hid Hkey Hval Hik Hiv Hkv Hnd Hapart lidx ridx jp o.
  rewrite (pre_processing_run w df t) by done.
  rewrite (set_index_unstack_Some t _ _ _ ids keys vals); try done;
    [|by intros ?%str_inj..].
  rewrite (groupby_first_Some t _ _ _ ids); try done; [|by intros ?%str_inj..].
  rewrite merge_on_index_disjoint.
  - cbn zeta. cbn [df_index df_columns]. subst o jp lidx ridx.
    rewrite <- !list_fmap_compose. reflexivity.
  - unfold columns. cbn [df_columns]. rewrite fst_fmap_self.
    rewrite elem_of_sort_uniq. intros Hin.
    destruct (proj1 (Forall_forall _ _) Hapart _ Hin) as [?%str_inj|?%str_inj];
      [|done..].
    apply assoc_is_Some. by eexists.
  - unfold columns. cbn [df_columns]. rewrite fst_fmap_label.
    rewrite elem_of_fst_filter. intros (a & Hne & _). done.
  - intros c. unfold columns. cbn [df_columns].
    rewrite fst_fmap_self, fst_fmap_label, elem_of_sort_uniq.
    rewrite elem_of_carried_columns. unfold passthrough.
    rewrite list_elem_of_filter, !not_elem_of_cons.
    intros Hin ((_ & ? & ? & _) & Hc).
    by destruct (proj1 (Forall_forall _ _) Hapart _ Hin Hc).
Qed.

(** C1, as amended: for a long table whose (ID, key) pairs are pairwise
    distinct and none of whose keys is the label of its ID column or of a
    passthrough column, [pre_processing] returns a new table with exactly one
    row per distinct ID (a row without ID contributes none) and with the
    distinct keys and the passthrough columns as its columns. *)
Theorem pre_processing_wide w df t key value id ids keys vals :
  heap w !! df = Some t →
  get_col t (str id) = Some ids →
  get_col t (str key) = Some keys →
  get_col t (str value) = Some vals →
  id ≠ key → id ≠ value → key ≠ value →
  NoDup (zip (s_values ids) (s_values keys)) →
  keys_apart t key value keys →
  reshapes_to_wide w df t key value id.
Proof.
  intros Ht Hid Hkey Hval Hik Hiv Hkv Hnd Hapart.
  pose proof (pre_processing_result w df t key value id ids keys vals
                Ht Hid Hkey Hval Hik Hiv Hkv Hnd Hapart) as Hrun.
  cbn zeta in Hrun. eexists _, _, _. split; [exact Hrun|]. split.
  { cbn [heap]. by apply list_lookup_middle. }
  exists ids, keys. split; [done|]. split; [done|]. cbn [df_index].
  rewrite join_left_labels_NoDup by apply NoDup_sort_uniq.
  split; [|split].
  - apply NoDup_filter, NoDup_sort_uniq.
  - intros r. rewrite list_elem_of_filter, !elem_of_sort_uniq.
    rewrite list_elem_of_filter. tauto.
  - intros c. unfold columns at 1. cbn [df_columns].
    rewrite fmap_app, elem_of_app, fst_fmap_self, fst_fmap_label.
    by rewrite elem_of_sort_uniq, elem_of_carried_columns.
Qed.

Lemma pre_processing_wide_witness :
  reshapes_to_wide (world_of long_example) 0 long_example
    default_key default_value default_id.
Proof.
  apply (pre_processing_wide (world_of long_example) 0 long_example
           default_key default_value default_id
           (mkSeries (Numeric "int64") [int 2; int 1; int 2])
           (mkSeries Object [str "Color"; str "Color"; str "City"])
           (mkSeries Object [str "rood"; str "zwart"; str "Bern"]));
    try reflexivity; try discriminate.
  - apply (bool_decide_unpack _). vm_compute. exact I.
  - apply (bool_decide_unpack _). vm_compute. exact I.
Defined.

(** C1, as stated, fails when an attribute is named like a passthrough
    column: the merge renames both columns ([City_x], [City_y]), so the
    attribute name is no column of the result. *)
Lemma pre_processing_wide_counterexample :
  NoDup (zip [int 1] [str "City"]) ∧
  ¬ reshapes_to_wide (world_of long_collide) 0 long_collide
      default_key default_value default_id.
Proof.
  split.
  { apply (bool_decide_unpack _). vm_compute. exact I. }
  intros (r & w' & o & Hrun & Ho & (ids & keys & Hids & Hkeys & _ & _ & Hcols)).
  vm_compute in Hrun. injection Hrun as <- <-.
  vm_compute in Ho. injection Ho as <-.
  vm_compute in Hkeys. injection Hkeys as <-.
  assert (Hin : str "City" ∈ columns
    (mkDF [int 1]
       [(str "City_x", mkSeries Object [str "Bern"]);
        (str "City_y", mkSeries Object [str "Zuzwil"])])).
  { apply Hcols. left. cbn. left. }
  vm_compute in Hin.
  apply elem_of_cons in Hin as [[=]|Hin].
  apply elem_of_cons in Hin as [[=]|Hin].
  by apply elem_of_nil in Hin.
Qed.

(** C5: when some (ID, key) pair occurs in two rows, [pre_processing] logs
    the exception and returns [None]; no table is built and the store is
    left as it was. *)
Theorem pre_processing_duplicate_pair w df t key value id ids keys i j p :
  heap w !! df = Some t →
  get_col t (str id) = Some ids →
  get_col t (str key) = Some keys →
  i ≠ j →
  zip (s_values ids) (s_values keys) !! i = Some p →
  zip (s_values ids) (s_values keys) !! j = Some p →
  pre_processing df key value id w =
  (ReturnedNone,
   mkWorld (heap w)
     (logs w ++ [LogException "An unexpected error occured while pre-processing"])
     (files w) (geo_calls w)).
Proof.
  intros Ht Hid Hkey Hij Hi Hj.
  rewrite (pre_processing_run w df t) by done.
  assert (Hnone : set_index_unstack t (str id) (str key) (str value) = None).
  { unfold set_index_unstack. rewrite Hid, Hkey. cbn [mbind option_bind].
    destruct (drop_col t (str id) ≫= _) as [rest|]; [|done].
    cbn [mbind option_bind].
    destruct (get_col rest (str value)) as [vals|]; [|done].
    cbn [mbind option_bind]. case_decide as Hnd; [|done].
    exfalso. apply Hij. by eapply NoDup_lookup. }
  by rewrite Hnone.
Qed.

Lemma pre_processing_duplicate_pair_witness :
  pre_processing 0 default_key default_value default_id (world_of long_twice) =
  (ReturnedNone,
   mkWorld [long_twice]
     [LogException "An unexpected error occured while pre-processing"] ∅ []).
Proof.
  apply (pre_processing_duplicate_pair (world_of long_twice) 0 long_twice
           default_key default_value default_id
           (mkSeries Object [int 7; int 7])
           (mkSeries Object [str "Km"; str "Km"])
           0 1 (int 7, str "Km")); try reflexivity.
  lia.
Defined.

(** ** Carry-forward *)

Lemma first_valid_spec g ids vals :
  first_present_value g ids vals (first_valid g ids vals).
Proof.
  revert vals. induction ids as [|i ids IH]; intros vals.
  - right. split; [by destruct vals|]. intros j x Hj. by destruct j.
  - destruct vals as [|v vals].
    + right. split; [done|]. intros j x _ Hx. by destruct j.
    + cbn [first_valid]. destruct (decide (i = g ∧ v ≠ None)) as [[-> Hv]|Hno].
      * left. split; [done|]. exists 0. split_and!; [done..|]. intros; lia.
      * destruct (IH vals) as [(Hv & k & Hk & Hkv & Hbefore)|(Hv & Hall)].
        -- left. split; [done|]. exists (S k). split_and!; [done..|].
           intros [|j] x Hlt Hj Hx.
           ++ simpl in Hj, Hx. simplify_eq. destruct x as [x|]; [|done].
              exfalso. apply Hno. done.
           ++ simpl in Hj, Hx. eapply Hbefore; [|done..]. lia.
        -- right. split; [done|]. intros [|j] x Hj Hx.
           ++ simpl in Hj, Hx. simplify_eq. destruct x as [x|]; [|done].
              exfalso. apply Hno. done.
           ++ simpl in Hj, Hx. by eapply Hall.
Qed.

(** C6, as amended: under the conditions of a successful reshape, the value
    carried into the wide table for a passthrough column and an ID is the
    first value of that column that is present among the input rows bearing
    the ID, in row order; it is missing only when all of them are. *)
Theorem pre_processing_carries_first_present w df t key value id ids keys vals :
  heap w !! df = Some t →
  get_col t (str id) = Some ids →
  get_col t (str key) = Some keys →
  get_col t (str value) = Some vals →
  id ≠ key → id ≠ value → key ≠ value →
  NoDup (zip (s_values ids) (s_values keys)) →
  keys_apart t key value keys →
  carries first_present_value w df t key value id.
Proof.
  intros Ht Hid Hkey Hval Hik Hiv Hkv Hnd Hapart.
  pose proof (pre_processing_result w df t key value id ids keys vals
                Ht Hid Hkey Hval Hik Hiv Hkv Hnd Hapart) as Hrun.
  cbn zeta in Hrun. eexists _, _, _, ids. split; [exact Hrun|]. split.
  { cbn [heap]. by apply list_lookup_middle. }
  split; [done|]. clear Hrun. intros c s Hc Hs.
  apply list_elem_of_filter in Hc as [Hc Hct].
  rewrite !not_elem_of_cons in Hc. destruct Hc as (Hci & Hck & Hcv & _).
  unfold get_col at 1. cbn [df_columns]. rewrite assoc_app.
  assert (Hleft : ∀ B (f : label → B),
            assoc c ((λ c, (c, f c)) <$> sort_uniq (s_values keys)) = None).
  { intros B f. apply assoc_None. rewrite fst_fmap_self, elem_of_sort_uniq.
    intros Hin.
    by destruct (proj1 (Forall_forall _ _) Hapart _ Hin Hct). }
  rewrite Hleft, assoc_fmap_snd, !assoc_filter.
  2:{ intros a. simpl. rewrite !not_elem_of_cons.
      split_and!; [done..|apply not_elem_of_nil]. }
  2:{ intros a. done. }
  unfold get_col in Hs. rewrite Hs. eexists. split; [done|].
  cbn [s_values df_index snd]. intros p g Hp.
  rewrite lookup_take_rows, list_lookup_fmap in Hp.
  destruct (join_positions _ _ 0 !! p) as [[i j]|] eqn:Hjp; [|done].
  simpl in Hp. injection Hp as <-.
  pose proof Hjp as Hij.
  apply list_elem_of_lookup_2, elem_of_join_positions in Hij
    as (l & _ & Hl & Hr).
  rewrite Nat.sub_0_r in Hl.
  rewrite lookup_take_rows, list_lookup_fmap, Hjp. cbn [fmap option_fmap option_map snd].
  rewrite list_lookup_fmap.
  unfold label, cell in *. rewrite Hl, Hr. simpl.
  eexists. split; [done|]. apply first_valid_spec.
Qed.

Lemma pre_processing_carries_first_present_witness :
  carries first_present_value (world_of long_example) 0 long_example
    default_key default_value default_id.
Proof.
  apply (pre_processing_carries_first_present (world_of long_example) 0
           long_example default_key default_value default_id
           (mkSeries (Numeric "int64") [int 2; int 1; int 2])
           (mkSeries Object [str "Color"; str "Color"; str "City"])
           (mkSeries Object [str "rood"; str "zwart"; str "Bern"]));
    try reflexivity; try discriminate.
  - apply (bool_decide_unpack _). vm_compute. exact I.
  - apply (bool_decide_unpack _). vm_compute. exact I.
Defined.

(** C6, as stated, fails when the first row of a product lacks the value:
    product 2 of [long_example] has no [MakeText] in its first row and
    ["VW"] in its second, and the wide table carries ["VW"]. *)
Lemma pre_processing_first_row_counterexample :
  ¬ carries first_row_value (world_of long_example) 0 long_example
      default_key default_value default_id.
Proof.
  intros (r & w' & o & ids & Hrun & Ho & Hids & Hcarry).
  vm_compute in Hrun. injection Hrun as <- <-.
  vm_compute in Ho. injection Ho as <-.
  vm_compute in Hids. injection Hids as <-.
  destruct (Hcarry (str "MakeText") (mkSeries Object [None; str "BMW"; str "VW"]))
    as (s' & Hs' & Hrow).
  { apply (bool_decide_unpack _). vm_compute. exact I. }
  { reflexivity. }
  vm_compute in Hs'. injection Hs' as <-.
  destruct (Hrow 1 (int 2) eq_refl) as (v & Hv & i & Hi & Hvi & Hfirst).
  cbn in Hv. injection Hv as <-.
  destruct i as [|[|[|i]]]; cbn in Hvi; try discriminate.
  apply (Hfirst 0); [lia | reflexivity].
Qed.

(** ** The store under a call *)

Lemma upd_same df t w : heap w !! df = Some t → upd df t w = w.
Proof.
  intros Ht. destruct w as [h l f g]. unfold upd. simpl in *.
  by rewrite list_insert_id.
Qed.

Lemma upd_upd df t t' w : upd df t' (upd df t w) = upd df t' w.
Proof. unfold upd. simpl. by rewrite list_insert_insert_eq. Qed.

Lemma heap_upd_eq df t w :
  df < length (heap w) → heap (upd df t w) !! df = Some t.
Proof. intros Hlt. simpl. by apply list_lookup_insert_eq. Qed.


Lemma get_set_col_eq t c s : get_col (set_col t c s) c = Some s.
Proof. unfold get_col, set_col. simpl. rewrite assoc_set_assoc. by rewrite decide_True. Qed.

Lemma get_set_col_ne t c c' s : c ≠ c' → get_col (set_col t c s) c' = get_col t c'.
Proof.
  intros Hne. unfold get_col, set_col. simpl. rewrite assoc_set_assoc.
  by rewrite decide_False.
Qed.

Lemma set_col_set_col t c s s' : set_col (set_col t c s) c s' = set_col t c s'.
Proof. unfold set_col. simpl. by rewrite set_assoc_set_assoc. Qed.

(** ** [translate] *)

Lemma translate_run w df t col path fill :
  heap w !! df = Some t →
  translate df col path fill w =
  match files w !! path, get_col t (str col) with
  | Some d, Some s =>
      (Returned df,
       logged (LogInfo (title col +:+ " Translated correctly"))
         (upd df (set_col t (str col) (translated d fill s)) w))
  | _, _ =>
      (ReturnedNone,
       logged (LogException "An unexpected error occured while normalizing colors") w)
  end.
Proof.
  intros Ht. unfold translate, try_except_else, bind, load_json, read, lift.
  destruct (files w !! path) as [d|]; [|done].
  rewrite Ht. by destruct (get_col t (str col)) as [s|].
Qed.

Lemma translate_cell_range d fill c :
  translate_cell d fill c ≠ None ∧
  (translate_cell d fill c = str fill ∨ in_target_set d (translate_cell d fill c)).
Proof.
  unfold translate_cell, map_dict.
  destruct c as [[k|z]|]; simpl; [|by auto..].
  destruct (d !! k) as [[v|]|] eqn:Hk; simpl; [|by auto..].
  split; [done|]. right. by exists k.
Qed.

Lemma translate_cell_fixed d fill c :
  translation_fixed d fill →
  translate_cell d fill (translate_cell d fill c) = translate_cell d fill c.
Proof.
  intros [Htargets Hfill].
  destruct (translate_cell_range d fill c) as [Hne [->|[k Hk]]]; [done|].
  by destruct (Htargets k _ Hk) as [?|?].
Qed.

(** C3, as amended: every value of the translated column is a target of the
    translation table or the fallback; a value that is a key of the table
    always becomes the target the table gives for it; and translating a
    second time leaves the column unchanged provided every target of the
    table and the fallback translate to themselves. *)
Theorem translate_range_and_stability w df t s d col path fill :
  heap w !! df = Some t →
  get_col t (str col) = Some s →
  files w !! path = Some d →
  ∃ w1 t1 s1,
    translate df col path fill w = (Returned df, w1) ∧
    heap w1 !! df = Some t1 ∧
    get_col t1 (str col) = Some s1 ∧
    length (s_values s1) = length (s_values s) ∧
    (∀ v, v ∈ s_values s1 → v = str fill ∨ in_target_set d v) ∧
    (∀ i k v, s_values s !! i = Some (str k) → d !! k = Some (Some v) →
              s_values s1 !! i = Some (Some v)) ∧
    (translation_fixed d fill → retranslation_stable w1 df col path fill).
Proof.
  intros Ht Hs Hd. pose proof (lookup_lt_Some _ _ _ Ht) as Hlt.
  rewrite (translate_run w df t) by done. rewrite Hd, Hs.
  eexists _, _, _. split; [done|].
  split; [by apply heap_upd_eq|]. split; [apply get_set_col_eq|].
  split; [|split; [|split]].
  - simpl. by rewrite length_fmap.
  - intros v [c [-> _]]%list_elem_of_fmap. apply translate_cell_range.
  - intros i k v Hi Hk. simpl. rewrite list_lookup_fmap, Hi. simpl.
    unfold translate_cell, map_dict, str, cell in *. by rewrite Hk.
  - intros Hfixed. unfold retranslation_stable.
    set (t1 := set_col t (str col) (translated d fill s)).
    set (w1 := logged _ (upd df t1 w)).
    assert (Ht1 : heap w1 !! df = Some t1) by by apply heap_upd_eq.
    rewrite (translate_run w1 df t1) by done.
    change (files w1) with (files w). rewrite Hd.
    unfold t1 at 1. rewrite get_set_col_eq.
    eexists _, t1, _. split; [done|]. split; [done|]. split.
    + apply heap_upd_eq. simpl. by rewrite length_insert.
    + unfold t1. rewrite set_col_set_col, !get_set_col_eq. f_equal.
      unfold translated. simpl. f_equal. rewrite <- list_fmap_compose.
      apply list_fmap_ext. intros i c _. simpl.
      by apply translate_cell_fixed.
Qed.

Lemma translate_range_and_stability_witness :
  ∃ w1 t1 s1,
    translate 0 "BodyColorText" "t.json" "Other"
      (world_with colours "t.json" dutch_closed) = (Returned 0, w1) ∧
    heap w1 !! 0 = Some t1 ∧
    get_col t1 (str "BodyColorText") = Some s1 ∧
    retranslation_stable w1 0 "BodyColorText" "t.json" "Other".
Proof.
  destruct (translate_range_and_stability
              (world_with colours "t.json" dutch_closed) 0 colours
              (mkSeries Object [str "zwart"; str "paars"; None])
              dutch_closed "BodyColorText" "t.json" "Other"
              eq_refl eq_refl eq_refl)
    as (w1 & t1 & s1 & Hrun & Ht1 & Hs1 & _ & _ & _ & Hstable).
  exists w1, t1, s1. split_and!; [done..|].
  apply Hstable. apply (bool_decide_unpack _). vm_compute. exact I.
Defined.

(** C3, as stated, fails on its last part: with the table
    [{"zwart": "Black"}] the first translation gives ["Black"], which is no
    key of the table, so the second one turns it into the fallback. *)
Lemma translate_twice_counterexample :
  ∃ w1, translate 0 "BodyColorText" "t.json" "Other"
          (world_with colours "t.json" dutch) = (Returned 0, w1) ∧
        ¬ retranslation_stable w1 0 "BodyColorText" "t.json" "Other".
Proof.
  eexists. split; [vm_compute; reflexivity|].
  intros (w2 & t1 & t2 & Hrun & Ht1 & Ht2 & Hcol).
  vm_compute in Hrun. injection Hrun as <-.
  vm_compute in Ht1. injection Ht1 as <-.
  vm_compute in Ht2. injection Ht2 as <-.
  vm_compute in Hcol. discriminate.
Qed.

(** C9, as amended: [translate] works in place.  When it succeeds it returns
    the object it was given, in which the column [col] has been replaced;
    the row index, every other column and every other object of the store
    are as before.  When it fails the store is unchanged.  Files and
    geocoder are not touched. *)
Theorem translate_frame w df t col path fill :
  heap w !! df = Some t →
  ∃ o w',
    translate df col path fill w = (o, w') ∧
    files w' = files w ∧
    geo_calls w' = geo_calls w ∧
    (∀ l, l ≠ df → heap w' !! l = heap w !! l) ∧
    ((o = ReturnedNone ∧ heap w' = heap w) ∨
     (o = Returned df ∧
      ∃ d s t',
        files w !! path = Some d ∧ get_col t (str col) = Some s ∧
        heap w' !! df = Some t' ∧
        df_index t' = df_index t ∧
        columns t' = columns t ∧
        get_col t' (str col) = Some (translated d fill s) ∧
        ∀ c, c ≠ str col → get_col t' c = get_col t c)).
Proof.
  intros Ht. pose proof (lookup_lt_Some _ _ _ Ht) as Hlt.
  rewrite (translate_run w df t) by done.
  destruct (files w !! path) as [d|] eqn:Hd.
  2:{ eexists _, _. split; [done|]. split_and!; [done..|]. left. done. }
  destruct (get_col t (str col)) as [s|] eqn:Hs.
  2:{ eexists _, _. split; [done|]. split_and!; [done..|]. left. done. }
  eexists _, _. split; [done|]. split_and!; [done|done| |].
  - intros l Hl. simpl. by apply list_lookup_insert_ne.
  - right. split; [done|]. exists d, s, (set_col t (str col) (translated d fill s)).
    split_and!; [done|done|by apply heap_upd_eq|done| | |].
    + unfold columns, set_col. simpl. rewrite fst_set_assoc.
      rewrite decide_True; [done|]. apply assoc_is_Some. by eexists.
    + apply get_set_col_eq.
    + intros c Hc. by apply get_set_col_ne.
Qed.

Lemma translate_frame_witness :
  ∃ o w',
    translate 0 "BodyColorText" "t.json" "Other"
      (world_with colours "t.json" dutch) = (o, w') ∧
    heap w' !! 1 = None.
Proof.
  destruct (translate_frame (world_with colours "t.json" dutch) 0 colours
              "BodyColorText" "t.json" "Other" eq_refl)
    as (o & w' & Hrun & _ & _ & Hother & _).
  exists o, w'. split; [done|]. rewrite Hother by lia. reflexivity.
Defined.

(** C9, as stated, fails: after a successful call the table the caller
    passed in holds the translated column. *)
Lemma translate_mutates_counterexample :
  ¬ leaves_input_unchanged (world_with colours "t.json" dutch) 0
      "BodyColorText" "t.json" "Other".
Proof. unfold leaves_input_unchanged. vm_compute. discriminate. Qed.

(** ** [normalize] *)

Section NormalizeSteps.
Variable to_numeric : string → cell → option cell.
Variables (w : world) (df : loc).
Hypothesis Hlt : df < length (heap w).

Lemma read_upd t : read df (upd df t w) = (Some t, upd df t w).
Proof. unfold read. by rewrite heap_upd_eq. Qed.

Lemma write_upd t t' : write df t' (upd df t w) = (Some tt, upd df t' w).
Proof. unfold write. fold (upd df t' (upd df t w)). by rewrite upd_upd. Qed.

Lemma assign_cast_upd t new old ty s :
  get_col t (str old) = Some s →
  assign_cast to_numeric df new old ty (upd df t w) =
  match astype to_numeric ty s with
  | Some s' => (Some tt, upd df (set_col t (str new) s') w)
  | None => (None, upd df t w)
  end.
Proof.
  intros Hs. unfold assign_cast, bind. rewrite read_upd. unfold lift at 1.
  rewrite Hs. unfold lift.
  destruct (astype to_numeric ty s) as [s'|]; [|done]. apply write_upd.
Qed.


Lemma fill_step_upd t fill new :
  fill_step df fill new (upd df t w) =
  match get_col t (str new) with
  | Some s =>
      match fillna_dict (str new) (str fill) (df_index t) s with
      | Some s' => (Some tt, upd df (set_col t (str new) s') w)
      | None => (None, upd df t w)
      end
  | None => (None, upd df t w)
  end.
Proof.
  unfold fill_step, bind. rewrite read_upd. unfold lift.
  destruct (get_col t (str new)) as [s|]; [|done].
  destruct (fillna_dict _ _ _ s) as [s'|]; [|done]. apply write_upd.
Qed.

Lemma get_col_after_transform t old tf s s1 :
  get_col t (str old) = Some s →
  transformed tf s = Some s1 →
  get_col (after_transform t old tf s1) (str old) = Some s1.
Proof.
  intros Hs Htf. destruct tf as [f|]; simpl in *.
  - apply get_set_col_eq.
  - congruence.
Qed.

Lemma normalize_entry_source_ok t fill new old ty tf s s1 s2 :
  get_col t (str old) = Some s →
  transformed tf s = Some s1 →
  astype to_numeric ty s1 = Some s2 →
  normalize_entry to_numeric df fill new (FromSource old ty tf) (upd df t w) =
  match fillna_dict (str new) (str fill) (df_index t) s2 with
  | Some s3 => (Some tt, upd df (after_source_entry t new old tf s1 s2 s3) w)
  | None => (None, upd df (before_fill t new old tf s1 s2) w)
  end.
Proof.
  intros Hs Htf Hcast.
  pose proof (get_col_after_transform t old tf s s1 Hs Htf) as Hs1.
  unfold normalize_entry. fold (fill_step df fill new).
  unfold bind at 1. unfold bind at 1.
  assert (Hfirst :
    match tf with
    | Some f =>
        bind (read df) (λ t0, bind (lift (get_col t0 (str old)))
          (λ s0, bind (lift (apply f s0))
             (λ s', bind (write df (set_col t0 (str old) s'))
                (λ _, assign_cast to_numeric df new old ty))))
    | None => assign_cast to_numeric df new old ty
    end (upd df t w) =
    (Some tt, upd df (set_col (after_transform t old tf s1) (str new) s2) w)).
  { destruct tf as [f|]; simpl in Htf |- *.
    - unfold bind. rewrite read_upd. unfold lift at 1. rewrite Hs.
      unfold lift at 1. rewrite Htf. rewrite write_upd.
      rewrite (assign_cast_upd _ _ _ _ s1) by apply get_set_col_eq.
      by rewrite Hcast.
    - injection Htf as <-. rewrite (assign_cast_upd _ _ _ _ s) by done.
      by rewrite Hcast. }
  rewrite Hfirst. clear Hfirst.
  set (t2 := set_col (after_transform t old tf s1) (str new) s2).
  unfold after_source_entry, before_fill. fold t2.
  assert (Hidx : df_index t2 = df_index t).
  { unfold t2, after_transform. by destruct tf. }
  destruct (decide (new ≠ old)) as [Hne|Heq].
  - unfold bind. rewrite read_upd. unfold lift.
    rewrite drop_col_Some.
    2:{ apply assoc_is_Some. exists s1. unfold t2.
        fold (get_col (set_col (after_transform t old tf s1) (str new) s2) (str old)).
        rewrite get_set_col_ne by (intros ?%str_inj; done). done. }
    rewrite write_upd, fill_step_upd.
    unfold get_col at 1. cbn [df_columns].
    rewrite assoc_filter by (intros a ?%str_inj; done).
    fold (get_col t2 (str new)). unfold t2 at 1. rewrite get_set_col_eq.
    cbn [df_index]. rewrite Hidx.
    by destruct (fillna_dict _ _ _ s2).
  - unfold ret. rewrite fill_step_upd. unfold t2 at 1.
    rewrite get_set_col_eq. rewrite Hidx.
    by destruct (fillna_dict _ _ _ s2).
Qed.

Lemma normalize_entry_source_cast_fails t fill new old ty tf s s1 :
  get_col t (str old) = Some s →
  transformed tf s = Some s1 →
  astype to_numeric ty s1 = None →
  normalize_entry to_numeric df fill new (FromSource old ty tf) (upd df t w) =
  (None, upd df (after_transform t old tf s1) w).
Proof.
  intros Hs Htf Hcast. unfold normalize_entry.
  unfold bind at 1. unfold bind at 1.
  destruct tf as [f|]; simpl in Htf |- *.
  - unfold bind. rewrite read_upd. unfold lift at 1. rewrite Hs.
    unfold lift at 1. rewrite Htf. rewrite write_upd.
    rewrite (assign_cast_upd _ _ _ _ s1) by apply get_set_col_eq.
    by rewrite Hcast.
  - injection Htf as <-. rewrite (assign_cast_upd _ _ _ _ s) by done.
    by rewrite Hcast.
Qed.

Lemma normalize_entry_no_source t fill new ty :
  normalize_entry to_numeric df fill new (NoSource ty None) (upd df t w) =
  match get_col t (str new) with
  | Some s =>
      match fillna_dict (str new) (str fill) (df_index t) s with
      | Some s' => (Some tt, upd df (set_col t (str new) s') w)
      | None => (None, upd df t w)
      end
  | None => (None, upd df t w)
  end.
Proof.
  unfold normalize_entry. fold (fill_step df fill new).
  unfold bind, ret. apply fill_step_upd.
Qed.
End NormalizeSteps.

Lemma normalize_run to_numeric df col fill w :
  normalize to_numeric df col fill w =
  match normalize_loop to_numeric df fill col w with
  | (Some _, w') =>
      (Returned df, logged (LogInfo "Normalization done correctly") w')
  | (None, w') =>
      (ReturnedNone,
       logged (LogException "An unexpected error occured while normalizing") w')
  end.
Proof.
  unfold normalize, try_except_else.
  by destruct (normalize_loop to_numeric df fill col w) as [[[]|] w'].
Qed.

Lemma normalize_loop_single to_numeric df fill new e w :
  normalize_loop to_numeric df fill [(new, e)] w =
  normalize_entry to_numeric df fill new e w.
Proof.
  simpl. unfold bind, ret.
  by destruct (normalize_entry to_numeric df fill new e w) as [[[]|] w'].
Qed.

(** ** Upper case *)

Lemma upper_ascii_not_lower a : is_lower (upper_ascii a) = false.
Proof. by destruct a as [[] [] [] [] [] [] [] []]. Qed.

Lemma upper_ascii_idemp a : upper_ascii (upper_ascii a) = upper_ascii a.
Proof. by destruct a as [[] [] [] [] [] [] [] []]. Qed.

Lemma no_lower_upper x : no_lower (upper x) = true.
Proof.
  induction x as [|a x IH]; [done|]. simpl.
  by rewrite upper_ascii_not_lower, IH.
Qed.

Lemma upper_upper x : upper (upper x) = upper x.
Proof.
  induction x as [|a x IH]; [done|]. simpl.
  by rewrite upper_ascii_idemp, IH.
Qed.

Lemma is_upper_upper_ascii a :
  is_upper (upper_ascii a) = is_lower a || is_upper a.
Proof. by destruct a as [[] [] [] [] [] [] [] []]. Qed.

Lemma has_upper_upper x : has_upper (upper x) = has_letter x.
Proof.
  induction x as [|a x IH]; [done|]. simpl.
  by rewrite is_upper_upper_ascii, IH.
Qed.

Lemma has_letter_upper x : has_letter (upper x) = has_letter x.
Proof.
  induction x as [|a x IH]; [done|]. simpl.
  by rewrite upper_ascii_not_lower, is_upper_upper_ascii, IH.
Qed.

Lemma upper_transform_upper_cased c v :
  upper_transform c = Some v → upper_cased v.
Proof.
  destruct c as [[x|z]|]; simpl; [|done..]. intros [= <-].
  exists (upper x).
  split_and!; [done|apply no_lower_upper|apply upper_upper|].
  unfold isupper. by rewrite no_lower_upper, has_upper_upper, has_letter_upper.
Qed.

Lemma mapM_Forall_out {A B : Type} (f : A → option B) (P : B → Prop) l k :
  (∀ a b, f a = Some b → P b) → mapM f l = Some k → Forall P k.
Proof.
  intros Hf Hm. apply mapM_Some_1 in Hm.
  induction Hm as [|a b l k Hab _ IH]; constructor; eauto.
Qed.

Lemma mapM_id_Some {A : Type} (l : list A) : mapM Some l = Some l.
Proof. apply mapM_Some_2. induction l; constructor; auto. Qed.

Lemma astype_object_like to_numeric ty s :
  ty = Category ∨ ty = Object →
  astype to_numeric ty s = Some (mkSeries ty (s_values s)).
Proof.
  intros Hty. unfold astype.
  assert (Hc : cast to_numeric ty = Some) by by destruct Hty as [-> | ->].
  by rewrite Hc, mapM_id_Some.
Qed.

(** ** The fill of [normalize] *)

Lemma length_fill_rows k fill idx vals :
  length idx = length vals → length (fill_rows k fill idx vals) = length vals.
Proof.
  intros Hlen. unfold fill_rows. rewrite length_zip_with.
  unfold label, cell in *. lia.
Qed.





Lemma fill_rows_id k fill idx vals :
  length idx = length vals →
  (k, (None : cell)) ∉ zip idx vals →
  fill_rows k fill idx vals = vals.
Proof.
  revert vals. induction idx as [|l idx IH]; intros [|c vals] Hlen Hk;
    simpl in *; try done.
  apply not_elem_of_cons in Hk as [Hhd Hk].
  rewrite decide_False by (intros [-> ->]; done).
  f_equal. apply IH; [lia | done].
Qed.

Lemma not_elem_of_zip_l {A B : Type} (a : A) (b : B) l k :
  a ∉ l → (a, b) ∉ zip l k.
Proof. intros Ha Hin. apply Ha. by eapply elem_of_zip_l. Qed.

Lemma not_elem_of_zip_r {A B : Type} (a : A) (b : B) l k :
  b ∉ k → (a, b) ∉ zip l k.
Proof. intros Hb Hin. apply Hb. by eapply elem_of_zip_r. Qed.

Lemma fillna_dict_present k fill idx s :
  None ∉ s_values s → fillna_dict k fill idx s = Some s.
Proof. intros Hno. unfold fillna_dict. by rewrite decide_False. Qed.


Lemma fillna_dict_values k fill idx s s' :
  length idx = length (s_values s) →
  fillna_dict k fill idx s = Some s' →
  s_values s' = fill_rows k fill idx (s_values s).
Proof.
  intros Hlen. unfold fillna_dict. case_decide as Hmiss.
  - destruct (s_dtype s); [case_decide; [done|]|..]; by intros [= <-].
  - intros [= <-]. symmetry. apply fill_rows_id; [done|].
    by apply not_elem_of_zip_r.
Qed.

Lemma length_fillna_dict k fill idx s s' :
  length idx = length (s_values s) →
  fillna_dict k fill idx s = Some s' →
  length (s_values s') = length (s_values s).
Proof.
  intros Hlen Hs'. rewrite (fillna_dict_values _ _ _ _ _ Hlen Hs').
  by apply length_fill_rows.
Qed.

Lemma fillna_dict_no_label k fill idx s s' :
  length idx = length (s_values s) →
  k ∉ idx →
  fillna_dict k fill idx s = Some s' →
  s_values s' = s_values s.
Proof.
  intros Hlen Hk Hs'. rewrite (fillna_dict_values _ _ _ _ _ Hlen Hs').
  apply fill_rows_id; [done|]. by apply not_elem_of_zip_l.
Qed.




Lemma get_col_None t c : get_col t c = None ↔ c ∉ columns t.
Proof. apply assoc_None. Qed.

Lemma wf_df_length t c s :
  wf_df t → get_col t c = Some s → length (df_index t) = length (s_values s).
Proof.
  intros [_ Hlen] Hs. apply assoc_Some_elem in Hs.
  symmetry. exact (proj1 (Forall_forall _ _) Hlen _ Hs).
Qed.

(** C4, as amended: an entry with a source column.  The transform, when
    there is one, is written back to the source column first (a cast that
    then fails leaves the transformed source column in the table); the
    transformed column is cast to the target type (through numpy for a
    numeric type, cell by cell) and stored under the target name; a source
    column with another name than the target is dropped; the other columns
    are untouched.  Line 100 then runs on the target column: when it raises
    the call returns [None] and leaves the table these statements built,
    otherwise the call returns the table with the filled column.  With the
    upper-case transform on ASCII text and a categorical or object target
    the call succeeds, and every value of the target column is the
    upper-cased source value: a string without lower-case letter, fully
    upper-case exactly when it holds a letter. *)
Theorem normalize_source_entry to_numeric w df t fill new old ty tf s s1 :
  heap w !! df = Some t →
  get_col t (str old) = Some s →
  transformed tf s = Some s1 →
  (astype to_numeric ty s1 = None →
     normalize_entry to_numeric df fill new (FromSource old ty tf) w =
       (None, upd df (after_transform t old tf s1) w) ∧
     get_col (after_transform t old tf s1) (str old) = Some s1)
  ∧
  (∀ s2, astype to_numeric ty s1 = Some s2 →
     s_dtype s2 = ty ∧
     (ty = Category ∨ ty = Object → s_values s2 = s_values s1) ∧
     (∀ tag, ty = Numeric tag →
        mapM (to_numeric tag) (s_values s1) = Some (s_values s2)) ∧
     get_col (before_fill t new old tf s1 s2) (str new) = Some s2 ∧
     (new ≠ old → str old ∉ columns (before_fill t new old tf s1 s2)) ∧
     (∀ c, c ≠ str new → c ≠ str old →
           get_col (before_fill t new old tf s1 s2) c = get_col t c) ∧
     (fillna_dict (str new) (str fill) (df_index t) s2 = None →
        normalize to_numeric df [(new, FromSource old ty tf)] fill w =
          (ReturnedNone,
           logged (LogException "An unexpected error occured while normalizing")
             (upd df (before_fill t new old tf s1 s2) w))) ∧
     (∀ s3, fillna_dict (str new) (str fill) (df_index t) s2 = Some s3 →
        ∃ t',
          normalize_entry to_numeric df fill new (FromSource old ty tf) w =
            (Some tt, upd df t' w) ∧
          normalize to_numeric df [(new, FromSource old ty tf)] fill w =
            (Returned df,
             logged (LogInfo "Normalization done correctly") (upd df t' w)) ∧
          get_col t' (str new) = Some s3 ∧
          (new ≠ old → str old ∉ columns t') ∧
          (∀ c, c ≠ str new → c ≠ str old → get_col t' c = get_col t c)) ∧
     (None ∉ s_values s2 →
        fillna_dict (str new) (str fill) (df_index t) s2 = Some s2) ∧
     (tf = Some upper_transform → ty = Category ∨ ty = Object →
      Forall (λ c, ascii_cell c = true) (s_values s) →
      ∃ t',
        normalize to_numeric df [(new, FromSource old ty tf)] fill w =
          (Returned df,
           logged (LogInfo "Normalization done correctly") (upd df t' w)) ∧
        get_col t' (str new) = Some s2 ∧
        Forall2 upper_of (s_values s) (s_values s2) ∧
        Forall upper_cased (s_values s2))).
Proof.
  intros Ht Hs Htf. pose proof (lookup_lt_Some _ _ _ Ht) as Hlt.
  pose proof (upd_same df t w Ht) as Hw.
  split.
  - intros Hcast. split.
    + pose proof (normalize_entry_source_cast_fails to_numeric w df Hlt t fill
                    new old ty tf s s1 Hs Htf Hcast) as Hrun.
      by rewrite Hw in Hrun.
    + by apply (get_col_after_transform t old tf s s1).
  - intros s2 Hcast.
    pose proof (normalize_entry_source_ok to_numeric w df Hlt t fill new old
                  ty tf s s1 s2 Hs Htf Hcast) as Hrun.
    rewrite Hw in Hrun.
    assert (Hnew : ∀ t0 : DataFrame,
              get_col (if decide (new ≠ old)
                       then mkDF (df_index (set_col t0 (str new) s2))
                              (filter (λ p, p.1 ≠ str old)
                                 (df_columns (set_col t0 (str new) s2)))
                       else set_col t0 (str new) s2) (str new) = Some s2).
    { intros t0. destruct (decide (new ≠ old)) as [Hne|_];
        [|apply get_set_col_eq].
      unfold get_col at 1. cbn [df_columns].
      rewrite assoc_filter by (intros a ?%str_inj; done).
      apply (get_set_col_eq t0). }
    assert (Hgone : ∀ t0 : DataFrame, new ≠ old →
              str old ∉ columns (if decide (new ≠ old)
                       then mkDF (df_index (set_col t0 (str new) s2))
                              (filter (λ p, p.1 ≠ str old)
                                 (df_columns (set_col t0 (str new) s2)))
                       else set_col t0 (str new) s2)).
    { intros t0 Hne. rewrite decide_True by done. apply get_col_None.
      unfold get_col. cbn [df_columns].
      apply assoc_filter_None. intros a. simpl. by intros ?. }
    assert (Hkept : ∀ c, c ≠ str new → c ≠ str old →
              get_col (before_fill t new old tf s1 s2) c = get_col t c).
    { intros c Hcn Hco. unfold before_fill. cbn zeta.
      assert (Hbase : get_col (set_col (after_transform t old tf s1) (str new) s2) c
                      = get_col t c).
      { rewrite get_set_col_ne by done. unfold after_transform.
        destruct tf; [|done]. by rewrite get_set_col_ne. }
      destruct (decide (new ≠ old)); [|done].
      unfold get_col at 1. cbn [df_columns].
      rewrite assoc_filter by (intros a; done). exact Hbase. }
    assert (Hvals : (ty = Category ∨ ty = Object → s_values s2 = s_values s1) ∧
                    (∀ tag, ty = Numeric tag →
                       mapM (to_numeric tag) (s_values s1) = Some (s_values s2))).
    { split.
      - intros Hty. rewrite (astype_object_like _ _ _ Hty) in Hcast.
        by injection Hcast as <-.
      - intros tag ->. unfold astype in Hcast.
        change (cast to_numeric (Numeric tag)) with (to_numeric tag) in Hcast.
        destruct (mapM (to_numeric tag) (s_values s1)) as [vs|]; [|done].
        by injection Hcast as <-. }
    destruct Hvals as [Hsame Hnum].
    split.
    { unfold astype in Hcast. destruct (mapM _ _); [|done].
      by injection Hcast as <-. }
    split; [exact Hsame|]. split; [exact Hnum|].
    split; [apply Hnew|]. split; [apply Hgone|]. split; [exact Hkept|].
    split.
    { intros Hfill. rewrite Hfill in Hrun.
      by rewrite normalize_run, normalize_loop_single, Hrun. }
    assert (Hret : ∀ s3,
      fillna_dict (str new) (str fill) (df_index t) s2 = Some s3 →
      ∃ t',
        normalize_entry to_numeric df fill new (FromSource old ty tf) w =
          (Some tt, upd df t' w) ∧
        normalize to_numeric df [(new, FromSource old ty tf)] fill w =
          (Returned df,
           logged (LogInfo "Normalization done correctly") (upd df t' w)) ∧
        get_col t' (str new) = Some s3 ∧
        (new ≠ old → str old ∉ columns t') ∧
        (∀ c, c ≠ str new → c ≠ str old → get_col t' c = get_col t c)).
    { intros s3 Hfill. rewrite Hfill in Hrun.
      exists (after_source_entry t new old tf s1 s2 s3).
      split; [done|]. split.
      { by rewrite normalize_run, normalize_loop_single, Hrun. }
      unfold after_source_entry.
      split; [apply get_set_col_eq|]. split.
      - intros Hne. apply get_col_None.
        rewrite get_set_col_ne by (intros ?%str_inj; done).
        apply get_col_None. by apply Hgone.
      - intros c Hcn Hco. rewrite get_set_col_ne by done. by apply Hkept. }
    split; [exact Hret|].
    split; [apply fillna_dict_present|].
    intros -> Hty Hascii. specialize (Hsame Hty).
    simpl in Htf. unfold apply in Htf.
    destruct (mapM upper_transform (s_values s)) as [vs|] eqn:Hvs; [|done].
    injection Htf as <-. cbn [s_values] in Hsame. rewrite Hsame.
    assert (Hup : Forall2 upper_of (s_values s) vs).
    { apply mapM_Some_1 in Hvs. eapply Forall2_impl; [exact Hvs|].
      intros c v Hcv. destruct c as [[x|z]|]; simplify_eq/=. by exists x. }
    assert (Hcased : Forall upper_cased vs).
    { eapply mapM_Forall_out; [|exact Hvs].
      intros a b. apply upper_transform_upper_cased. }
    destruct (Hret s2) as (t' & _ & Hcall & Hcol & _).
    { apply fillna_dict_present. rewrite Hsame.
      intros Hin. apply (proj1 (Forall_forall _ _) Hcased) in Hin.
      by destruct Hin as (x & ? & _). }
    exists t'. rewrite Hsame in *. done.
Qed.

Lemma normalize_source_entry_witness :
  ∃ t',
    normalize numbers_only 0
      [("color", FromSource "BodyColorText" Category (Some upper_transform))]
      "null" (world_of translated_colours) =
    (Returned 0,
     logged (LogInfo "Normalization done correctly")
       (upd 0 t' (world_of translated_colours))) ∧
    get_col t' (str "color") =
      Some (mkSeries Category [str "BLACK"; str "OTHER"]) ∧
    (str "BodyColorText" ∉ columns t') ∧
    Forall upper_cased [str "BLACK"; str "OTHER"].
Proof.
  destruct (normalize_source_entry numbers_only (world_of translated_colours) 0
              translated_colours "null" "color" "BodyColorText" Category
              (Some upper_transform)
              (mkSeries Object [str "Black"; str "Other"])
              (mkSeries Object [str "BLACK"; str "OTHER"])
              eq_refl eq_refl eq_refl) as [_ Hok].
  destruct (Hok (mkSeries Category [str "BLACK"; str "OTHER"]) eq_refl)
    as (_ & _ & _ & _ & _ & _ & _ & Hret & _ & Hupper).
  destruct (Hupper eq_refl) as (_ & _ & _ & _ & Hcased).
  { by left. }
  { repeat constructor. }
  destruct (Hret (mkSeries Category [str "BLACK"; str "OTHER"]) eq_refl)
    as (t' & _ & Hrun & Hcol & Hdrop & _).
  exists t'. split; [exact Hrun|]. split; [exact Hcol|].
  split; [apply Hdrop; discriminate | exact Hcased].
Defined.

(** C4, as stated, fails in its last sentence: a colour that holds no
    letter comes out of [x.upper()] as it went in, and [isupper] is false of
    it. *)
Lemma normalize_upper_counterexample :
  ¬ target_fully_upper
      (normalize numbers_only 0
         [("color", FromSource "BodyColorText" Category (Some upper_transform))]
         "null" (world_of colour_codes)).2
      0 "color".
Proof.
  intros (t' & s' & Ht' & Hs' & Hall).
  vm_compute in Ht'. injection Ht' as <-.
  vm_compute in Hs'. injection Hs' as <-.
  apply Forall_cons in Hall as [_ Hall].
  apply Forall_cons in Hall as [(x & Hx & Hup) _].
  injection Hx as <-. vm_compute in Hup. discriminate.
Qed.




(** C2 does not hold of the code: [normalize] is documented to fill missing
    values, but [Series.fillna] is handed a dict keyed by the COLUMN name,
    which a series reads as a row label.  On a table whose rows are labelled
    1 and 2 the missing mileage stays missing (and the column of objects
    comes back as one of floats). *)
Theorem normalize_leaves_missing :
  ∃ w' t',
    normalize numbers_only 0 [("mileage", FromSource "Km" Object None)] "null"
      (world_of translated_colours) = (Returned 0, w') ∧
    heap w' !! 0 = Some t' ∧
    get_col t' (str "mileage") =
      Some (mkSeries (Numeric "float64") [int 10; None]).
Proof. eexists _, _. split_and!; vm_compute; reflexivity. Qed.

(** ** [get_country_codes] *)

Lemma called_nil w : called [] w = w.
Proof. destruct w. unfold called. simpl. by rewrite app_nil_r. Qed.

Lemma called_called a b w : called b (called a w) = called (a ++ b) w.
Proof. unfold called. simpl. by rewrite app_assoc. Qed.

Section GeocoderFacts.
Variable geocode : cell → response.

Lemma country_code_of_run city w :
country_code_of geocode city w = (code_of geocode city, called [city] w).
Proof.
unfold country_code_of, code_of, called.
by destruct (geocode city) as [| |[cc|]].
Qed.

Lemma fill_city_dict_ok cities acc w :
Forall (λ c, is_Some (code_of geocode c)) cities →
∃ D, fill_city_dict geocode cities acc w = (Some D, called cities w) ∧
     ∀ c, assoc c D = if decide (c ∈ cities) then code_of geocode c else assoc c acc.
Proof.
intros Hall. revert acc w.
induction Hall as [|city cities [code Hcode] _ IH]; intros acc w.
- exists acc. cbn [fill_city_dict]. unfold ret. rewrite called_nil.
  split; [done|].
  intros c. rewrite decide_False; [done | apply not_elem_of_nil].
- cbn [fill_city_dict]. unfold bind. rewrite country_code_of_run, Hcode.
  destruct (IH (set_assoc city code acc) (called [city] w)) as (D & Hrun & HD).
  exists D. rewrite Hrun, called_called. split; [done|].
  intros c. rewrite HD, assoc_set_assoc.
  destruct (decide (c ∈ cities)) as [Hin|Hnin];
    destruct (decide (c ∈ city :: cities)) as [Hin'|Hnin'];
    destruct (decide (city = c)) as [Heq|Hne];
    try (exfalso; apply Hnin'; subst; by (left || right));
    rewrite ?decide_True by done; rewrite ?decide_False by done; try done.
  + subst. by rewrite Hcode.
  + apply elem_of_cons in Hin' as [->|?]; done.
Qed.

Lemma fill_city_dict_fail cities acc w :
Exists (λ c, code_of geocode c = None) cities →
∃ calls, fill_city_dict geocode cities acc w = (None, called calls w) ∧
         calls `prefix_of` cities.
Proof.
revert acc w. induction cities as [|city cities IH]; intros acc w Hex.
- by apply Exists_nil in Hex.
- cbn [fill_city_dict]. unfold bind. rewrite country_code_of_run.
  destruct (code_of geocode city) as [code|] eqn:Hcode.
  + apply Exists_cons in Hex as [Hex|Hex]; [congruence|].
    destruct (IH (set_assoc city code acc) (called [city] w) Hex)
      as (calls & Hrun & Hpre).
    exists (city :: calls). rewrite Hrun, called_called. split; [done|].
    by apply prefix_cons.
  + exists [city]. split; [done|]. by apply prefix_cons, prefix_nil.
Qed.

Lemma get_country_codes_run w df t s col col_name :
heap w !! df = Some t →
get_col t (str col) = Some s →
get_country_codes geocode df col col_name w =
match fill_city_dict geocode (unique (s_values s)) [] w with
| (Some D, w') =>
    (Returned df,
     logged (LogInfo "Country code extraction correctly")
       (upd df (set_col t (str col_name)
                  (mkSeries Object (map_city D <$> s_values s))) w'))
| (None, w') =>
    (ReturnedNone,
     logged (LogException
               "An unexpected error occured while retrieving country codes form cities")
       w')
end.
Proof.
intros Ht Hs. unfold get_country_codes, try_except_else.
unfold bind at 1. unfold read at 1. rewrite Ht.
unfold bind at 1. unfold lift at 1. rewrite Hs.
unfold bind at 1.
destruct (fill_city_dict geocode (unique (s_values s)) [] w)
  as [[D|] w'] eqn:Hfill; [|done].
assert (Hheap : heap w' = heap w).
{ destruct (decide (Forall (λ c, is_Some (code_of geocode c)) (unique (s_values s))))
    as [Hall|Hex].
  - destruct (fill_city_dict_ok _ [] w Hall) as (D' & Hrun & _).
    rewrite Hrun in Hfill. by injection Hfill as _ <-.
  - apply not_Forall_Exists in Hex; [|apply _].
    destruct (fill_city_dict_fail (unique (s_values s)) [] w) as (? & Hrun & _).
    { eapply Exists_impl; [exact Hex|]. intros c Hc. simpl in Hc.
      by destruct (code_of geocode c); [destruct Hc; eexists|]. }
    rewrite Hrun in Hfill. done. }
unfold bind, read, lift. rewrite Hheap, Ht, Hs. done.
Qed.
End GeocoderFacts.



(** ** Failures *)

Lemma same_but_refl df w : same_but df w w.
Proof. by repeat split. Qed.

Lemma same_but_trans df w1 w2 w3 :
  same_but df w1 w2 → same_but df w2 w3 → same_but df w1 w3.
Proof.
  intros (Hl1 & Hf1 & Hg1 & Hh1) (Hl2 & Hf2 & Hg2 & Hh2).
  split_and!; [congruence..|]. intros l Hl. by rewrite Hh2, Hh1.
Qed.

Lemma frames_ret {A : Type} df (a : A) : frames df (ret a).
Proof. intros w. apply same_but_refl. Qed.

Lemma frames_lift {A : Type} df (o : option A) : frames df (lift o).
Proof. intros w. apply same_but_refl. Qed.

Lemma frames_read df : frames df (read df).
Proof. intros w. apply same_but_refl. Qed.

Lemma frames_write df t : frames df (write df t).
Proof.
  intros w. split_and!; [done..|]. intros l Hl. simpl.
  by apply list_lookup_insert_ne.
Qed.

Lemma frames_bind {A B : Type} df (m : M A) (k : A → M B) :
  frames df m → (∀ a, frames df (k a)) → frames df (bind m k).
Proof.
  intros Hm Hk w. unfold bind. specialize (Hm w).
  destruct (m w) as [[a|] w1]; simpl in *; [|done].
  eapply same_but_trans; [exact Hm | apply Hk].
Qed.

Ltac solve_frames :=
  repeat first
    [ apply frames_ret | apply frames_lift | apply frames_read
    | apply frames_write | apply frames_bind; [|intros ?] ].

Lemma frames_normalize_entry to_numeric df fill new e :
  frames df (normalize_entry to_numeric df fill new e).
Proof.
  unfold normalize_entry, assign_cast.
  destruct e as [old ty [f|]|ty [v|]]; solve_frames; case_decide; solve_frames.
Qed.

Lemma frames_normalize_loop to_numeric df fill items :
  frames df (normalize_loop to_numeric df fill items).
Proof.
  induction items as [|[new e] items IH]; simpl; [apply frames_ret|].
  apply frames_bind; [apply frames_normalize_entry | by intros _].
Qed.

(** C8, as amended.  [translate] and [get_country_codes] never raise, log
    every failure and then leave the store as it was.  [normalize] never
    raises, logs every failure and returns its argument when it succeeds,
    but a failure keeps what was written to the table before it; no other
    object of the store is touched.  [pre_processing] returns [None] after
    logging whenever the pivot or the carry-forward step fails, and then
    leaves the store as it was. *)
Theorem failures_are_caught to_numeric geocode w df t :
  heap w !! df = Some t →
  (∀ col path fill, all_or_nothing (translate df col path fill) w) ∧
  (∀ col col_name,
     all_or_nothing (get_country_codes geocode df col col_name) w) ∧
  (∀ col fill,
     (normalize to_numeric df col fill w).1 ≠ Raised ∧
     (∀ r, (normalize to_numeric df col fill w).1 = Returned r → r = df) ∧
     ((normalize to_numeric df col fill w).1 = ReturnedNone →
      (∃ msg, logs (normalize to_numeric df col fill w).2 =
              logs w ++ [LogException msg]) ∧
      ∀ l, l ≠ df →
        heap (normalize to_numeric df col fill w).2 !! l = heap w !! l)) ∧
  (∀ key value id,
     ((pre_processing df key value id w).1 = ReturnedNone →
      heap (pre_processing df key value id w).2 = heap w ∧
      ∃ msg, logs (pre_processing df key value id w).2 =
             logs w ++ [LogException msg]) ∧
     (set_index_unstack t (str id) (str key) (str value) = None ∨
      groupby_first t (str id) (str key) (str value) = None →
      (pre_processing df key value id w).1 = ReturnedNone)).
Proof.
  intros Ht. split_and!.
  - intros col path fill. unfold all_or_nothing.
    rewrite (translate_run w df t) by done.
    destruct (files w !! path) as [d|]; [destruct (get_col t (str col))|];
      (split; [done|]); intros ?; try done; simpl; eauto.
  - intros col col_name. unfold all_or_nothing.
    destruct (get_col t (str col)) as [s|] eqn:Hs.
    2:{ unfold get_country_codes, try_except_else, bind, read, lift.
        rewrite Ht, Hs. simpl. split; [done|]. eauto. }
    rewrite (get_country_codes_run geocode w df t s) by done.
    destruct (decide (Forall (λ c, is_Some (code_of geocode c))
                        (unique (s_values s)))) as [Hall|Hex].
    + destruct (fill_city_dict_ok geocode _ [] w Hall) as (D & Hrun & _).
      rewrite Hrun. split; done.
    + apply not_Forall_Exists in Hex; [|apply _].
      destruct (fill_city_dict_fail geocode (unique (s_values s)) [] w)
        as (calls & Hrun & _).
      { eapply Exists_impl; [exact Hex|]. intros c Hc. simpl in Hc.
        by destruct (code_of geocode c); [destruct Hc; eexists|]. }
      rewrite Hrun. split; [done|]. intros _. simpl. eauto.
  - intros col fill. rewrite normalize_run.
    pose proof (frames_normalize_loop to_numeric df fill col w)
      as (Hlogs & _ & _ & Hheap).
    destruct (normalize_loop to_numeric df fill col w) as [[[]|] w'];
      simpl in *.
    + split; [done|]. split; [by intros r [= <-] | done].
    + split; [done|]. split; [done|]. intros _. rewrite Hlogs. eauto.
  - intros key value id. rewrite (pre_processing_run w df t) by done. split.
    + destruct (set_index_unstack _ _ _ _) as [df1|]; simpl; [|eauto].
      destruct (groupby_first _ _ _ _) as [df2|]; simpl; [|eauto].
      by destruct (merge_on_index df1 df2 (str id)).
    + intros [-> | Hg]; [done|]. rewrite Hg.
      by destruct (set_index_unstack _ _ _ _).
Qed.

Lemma failures_are_caught_witness :
  all_or_nothing (translate 0 "Colour" "t.json" "Other")
    (world_with colours "t.json" dutch)
  ∧ all_or_nothing (get_country_codes one_place 0 "City" default_col_name)
      (world_of cities).
Proof.
  split.
  - apply (failures_are_caught numbers_only one_place
             (world_with colours "t.json" dutch) 0 colours eq_refl).
  - apply (failures_are_caught numbers_only one_place
             (world_of cities) 0 cities eq_refl).
Defined.

(** C8, as stated, fails for [normalize]: the second entry of this
    specification cannot be cast (one mileage is missing), the call returns
    [None], and the table of the caller has lost [BodyColorText] and gained
    [color] from the first entry. *)
Lemma normalize_partial_counterexample :
  ¬ all_or_nothing
      (normalize numbers_only 0
         [("color", FromSource "BodyColorText" Category None);
          ("mileage", FromSource "Km" (Numeric "h") None)]
         "null")
      (world_of translated_colours).
Proof.
  intros [_ Hnone]. destruct (Hnone eq_refl) as [Hheap _].
  vm_compute in Hheap. discriminate.
Qed.

(** * Further properties of the module *)

(** ** [pre_processing]: errors, frame, pivot *)

Lemma assoc_filter_absent {A : Type} (Q : label * A → Prop)
    `{∀ p, Decision (Q p)} c (cols : list (label * A)) :
  assoc c cols = None → assoc c (filter Q cols) = None.
Proof.
  rewrite !assoc_None. intros Hc Hin. apply Hc.
  apply elem_of_fst_filter in Hin as (a & _ & Hin).
  apply list_elem_of_fmap. by exists (c, a).
Qed.

Lemma set_index_unstack_rest_None t id key value :
  get_col t value = None ∨ value = id ∨ value = key →
  set_index_unstack t id key value = None.
Proof.
  intros Hv. unfold set_index_unstack.
  destruct (get_col t id) as [ids|]; [|done]. cbn [mbind option_bind].
  destruct (get_col t key) as [keys|]; [|done]. cbn [mbind option_bind].
  destruct (drop_col t id) as [t1|] eqn:Hd; [|reflexivity].
  cbn [mbind option_bind].
  unfold drop_col in Hd. case_decide; [|done]. injection Hd as Hd.
  assert (Hrest : ∀ rest,
            (if decide (key = id) then Some t1 else drop_col t1 key) = Some rest →
            get_col rest value = None).
  { intros rest Hr.
    assert (Ht1 : get_col t1 value = None ∨ (value = key ∧ key ≠ id)).
    { destruct Hv as [Hv|[->| ->]].
      - left. subst t1. by apply assoc_filter_absent.
      - left. subst t1. apply assoc_filter_None. intros a. simpl. by intros ?.
      - destruct (decide (key = id)) as [->|Hne]; [|by right].
        left. subst t1. apply assoc_filter_None. intros a. simpl.
        by intros ?. }
    destruct (decide (key = id)) as [->|Hne].
    - injection Hr as <-. by destruct Ht1 as [?|[_ ?]].
    - unfold drop_col in Hr. case_decide; [|done]. injection Hr as <-.
      unfold get_col. cbn [df_columns]. destruct Ht1 as [Ht1|[-> _]].
      + by apply assoc_filter_absent.
      + apply assoc_filter_None. intros a. simpl. by intros ?. }
  destruct (if decide (key = id) then Some t1 else drop_col t1 key)
    as [rest|]; [|done].
  cbn [mbind option_bind]. by rewrite (Hrest rest eq_refl).
Qed.

(** X1: a call of [pre_processing] that names a column the table does not
    have, or the same column twice, ends in the handler: the exception is
    logged, [None] is returned and the store is as before. *)
Theorem pre_processing_bad_columns w df t key value id :
  heap w !! df = Some t →
  str id ∉ columns t ∨ str key ∉ columns t ∨ str value ∉ columns t ∨
    value = id ∨ value = key ∨ id = key →
  pre_processing df key value id w =
  (ReturnedNone,
   logged (LogException "An unexpected error occured while pre-processing") w).
Proof.
  intros Ht Hbad. rewrite (pre_processing_run w df t) by done.
  assert (Hnone : set_index_unstack t (str id) (str key) (str value) = None ∨
                  groupby_first t (str id) (str key) (str value) = None).
  { destruct Hbad as [Hb|[Hb|[Hb|[->|[->| ->]]]]].
    - left. apply get_col_None in Hb. unfold set_index_unstack. by rewrite Hb.
    - left. apply get_col_None in Hb. unfold set_index_unstack. rewrite Hb.
      by destruct (get_col t (str id)).
    - left. apply set_index_unstack_rest_None. left. by apply get_col_None.
    - left. apply set_index_unstack_rest_None. auto.
    - left. apply set_index_unstack_rest_None. auto.
    - right. unfold groupby_first. rewrite assoc_filter_None; [done|].
      intros a. simpl. intros Hn. apply Hn. left. }
  destruct Hnone as [-> | Hg]; [done|]. rewrite Hg.
  by destruct (set_index_unstack _ _ _ _).
Qed.

Lemma pre_processing_bad_columns_witness :
  pre_processing 0 default_key "Values" default_id (world_of long_example) =
  (ReturnedNone,
   logged (LogException "An unexpected error occured while pre-processing")
     (world_of long_example)).
Proof.
  apply (pre_processing_bad_columns (world_of long_example) 0 long_example
           default_key "Values" default_id eq_refl).
  right. right. left. apply (bool_decide_unpack _). vm_compute. exact I.
Defined.

Lemma pre_processing_store w df key value id :
  (∀ l, l < length (heap w) →
        heap (pre_processing df key value id w).2 !! l = heap w !! l) ∧
  (∀ r, (pre_processing df key value id w).1 = Returned r →
        r = length (heap w) ∧
        length (heap (pre_processing df key value id w).2) = S (length (heap w))) ∧
  ((∀ r, (pre_processing df key value id w).1 ≠ Returned r) →
   heap (pre_processing df key value id w).2 = heap w).
Proof.
  unfold pre_processing, try_except_else, bind, read, lift, ret, log, alloc.
  destruct (heap w !! df) as [t|]; cbn [fst snd heap];
    [|split_and!; [done|done|done]].
  destruct (set_index_unstack _ _ _ _) as [df1|]; cbn [fst snd heap];
    [|split_and!; [done|done|done]].
  destruct (groupby_first _ _ _ _) as [df2|]; cbn [fst snd heap];
    [|split_and!; [done|done|done]].
  destruct (merge_on_index _ _ _) as [o|]; cbn [fst snd heap];
    [|split_and!; [done|done|done]].
  split_and!.
  - intros l Hl. by apply lookup_app_l.
  - intros r [= <-]. split; [done|]. rewrite length_app. simpl. lia.
  - intros Hno. by destruct (Hno (length (heap w))).
Qed.

(** X2: [pre_processing] never writes to a table of the store.  Whatever
    it is called on, every object that was in the store is as before; a
    successful call adds exactly one object, the table it returns, and any
    other call adds none. *)
Theorem pre_processing_frame w df key value id :
  (∀ l, l < length (heap w) →
        heap (pre_processing df key value id w).2 !! l = heap w !! l) ∧
  (∀ r, (pre_processing df key value id w).1 = Returned r →
        r = length (heap w) ∧
        length (heap (pre_processing df key value id w).2) = S (length (heap w))) ∧
  ((∀ r, (pre_processing df key value id w).1 ≠ Returned r) →
   heap (pre_processing df key value id w).2 = heap w).
Proof. apply pre_processing_store. Qed.

Lemma pivot_cell_hit g c ids keys vals i v :
  NoDup (zip ids keys) →
  ids !! i = Some g → keys !! i = Some c → vals !! i = Some v →
  pivot_cell g c ids keys vals = v.
Proof.
  revert keys vals i.
  induction ids as [|x ids IH]; intros [|k keys] [|v0 vals] i Hnd Hi Hk Hv;
    try (by destruct i).
  cbn [pivot_cell]. destruct i as [|i]; simpl in Hi, Hk, Hv.
  - simplify_eq. by rewrite decide_True.
  - simpl in Hnd. apply NoDup_cons in Hnd as [Hhead Hnd].
    destruct (decide (x = g ∧ k = c)) as [[-> ->]|Hno].
    + exfalso. apply Hhead. apply list_elem_of_lookup. exists i.
      apply lookup_zip_with_Some. by exists g, c.
    + by eapply IH.
Qed.

Lemma pivot_cell_miss g c ids keys vals :
  (∀ i, ids !! i = Some g → keys !! i ≠ Some c) →
  pivot_cell g c ids keys vals = None.
Proof.
  revert keys vals.
  induction ids as [|x ids IH]; intros [|k keys] [|v0 vals] Hno; try done.
  cbn [pivot_cell]. destruct (decide (x = g ∧ k = c)) as [[-> ->]|_].
  - by destruct (Hno 0 eq_refl).
  - apply IH. intros i Hi. apply (Hno (S i)). done.
Qed.

Lemma assoc_fmap_key {B : Type} (f : label → B) (l : list label) c :
  c ∈ l → assoc c ((λ c, (c, f c)) <$> l) = Some (f c).
Proof.
  induction l as [|c' l IH]; [by rewrite elem_of_nil|].
  rewrite fmap_cons. cbn [assoc].
  destruct (decide (c' = c)) as [->|Hne]; [done|].
  rewrite elem_of_cons. intros [?|?]; [congruence | auto].
Qed.

(** X3: the pivot.  In the table [pre_processing] returns, the cell in the
    row of an ID and the column of a key holds the value of the input row
    with that ID and that key, and is missing when the input has no such
    row. *)
Theorem pre_processing_pivot_values w df t key value id ids keys vals :
  heap w !! df = Some t →
  get_col t (str id) = Some ids →
  get_col t (str key) = Some keys →
  get_col t (str value) = Some vals →
  id ≠ key → id ≠ value → key ≠ value →
  NoDup (zip (s_values ids) (s_values keys)) →
  keys_apart t key value keys →
  ∃ r w' o,
    pre_processing df key value id w = (Returned r, w') ∧
    heap w' !! r = Some o ∧
    ∀ c, c ∈ s_values keys →
      ∃ s', get_col o c = Some s' ∧
        ∀ p g, df_index o !! p = Some g →
          (∀ i v, s_values ids !! i = Some g → s_values keys !! i = Some c →
                  s_values vals !! i = Some v → s_values s' !! p = Some v) ∧
          ((∀ i, s_values ids !! i = Some g → s_values keys !! i ≠ Some c) →
           s_values s' !! p = Some None).
Proof.
  intros Ht Hid Hkey Hval Hik Hiv Hkv Hnd Hapart.
  pose proof (pre_processing_result w df t key value id ids keys vals
                Ht Hid Hkey Hval Hik Hiv Hkv Hnd Hapart) as Hrun.
  cbn zeta in Hrun. eexists _, _, _. split; [exact Hrun|]. split.
  { cbn [heap]. by apply list_lookup_middle. }
  clear Hrun. intros c Hc. unfold get_col at 1. cbn [df_columns].
  rewrite assoc_app, assoc_fmap_key by by apply elem_of_sort_uniq.
  eexists. split; [done|]. cbn [s_values df_index]. intros p g Hp.
  rewrite lookup_take_rows, list_lookup_fmap in Hp.
  destruct (join_positions _ _ 0 !! p) as [[i j]|] eqn:Hjp; [|done].
  simpl in Hp. injection Hp as <-.
  pose proof Hjp as Hij.
  apply list_elem_of_lookup_2, elem_of_join_positions in Hij
    as (l & _ & Hl & _).
  rewrite Nat.sub_0_r in Hl.
  assert (Hcell :
    take_rows (join_positions (sort_uniq (s_values ids))
                 (sort_uniq (filter (λ c, c ≠ None) (s_values ids))) 0).*1
      ((λ r, pivot_cell r c (s_values ids) (s_values keys) (s_values vals))
         <$> sort_uniq (s_values ids)) !! p =
    Some (pivot_cell l c (s_values ids) (s_values keys) (s_values vals))).
  { rewrite lookup_take_rows, list_lookup_fmap, Hjp.
    cbn [fmap option_fmap option_map fst]. rewrite list_lookup_fmap.
    unfold label, cell in *. by rewrite Hl. }
  unfold label, cell in *. rewrite Hl. simpl. split.
  - intros i0 v Hi0 Hk0 Hv0. rewrite Hcell. f_equal.
    by eapply pivot_cell_hit.
  - intros Hno. rewrite Hcell. f_equal. by apply pivot_cell_miss.
Qed.

Lemma pre_processing_pivot_values_witness :
  ∃ r w' o,
    pre_processing 0 default_key default_value default_id
      (world_of long_example) = (Returned r, w') ∧
    heap w' !! r = Some o ∧
    get_col o (str "City") = Some (mkSeries Object [None; str "Bern"]).
Proof.
  destruct (pre_processing_pivot_values (world_of long_example) 0
              long_example default_key default_value default_id
              (mkSeries (Numeric "int64") [int 2; int 1; int 2])
              (mkSeries Object [str "Color"; str "Color"; str "City"])
              (mkSeries Object [str "rood"; str "zwart"; str "Bern"]))
    as (r & w' & o & Hrun & Ho & _);
    try reflexivity; try discriminate.
  - apply (bool_decide_unpack _). vm_compute. exact I.
  - apply (bool_decide_unpack _). vm_compute. exact I.
  - exists r, w', o. split; [exact Hrun|]. split; [exact Ho|].
    vm_compute in Hrun. injection Hrun as <- <-.
    vm_compute in Ho. injection Ho as <-. reflexivity.
Defined.

(** X4: the merge of [pre_processing] stands in the [else] branch, outside
    the [try].  When the pivot and the carry-forward step succeed but some
    attribute is named like the ID column, the pivoted table has the ID both
    as row index and as column, the merge raises, and nothing catches it:
    the success message has been logged, no table is built, and the
    exception reaches the caller. *)
Theorem pre_processing_raises_on_id_key w df t key value id ids keys vals :
  heap w !! df = Some t →
  get_col t (str id) = Some ids →
  get_col t (str key) = Some keys →
  get_col t (str value) = Some vals →
  id ≠ key → id ≠ value → key ≠ value →
  NoDup (zip (s_values ids) (s_values keys)) →
  str id ∈ s_values keys →
  pre_processing df key value id w =
  (Raised, logged (LogInfo "Pre-processing done correctly") w).
Proof.
  intros Ht Hid Hkey Hval Hik Hiv Hkv Hnd Hin.
  rewrite (pre_processing_run w df t) by done.
  rewrite (set_index_unstack_Some t _ _ _ ids keys vals); try done;
    [|by intros ?%str_inj..].
  rewrite (groupby_first_Some t _ _ _ ids); try done; [|by intros ?%str_inj..].
  unfold merge_on_index. rewrite decide_True; [done|].
  left. unfold columns. cbn [df_columns]. rewrite fst_fmap_self.
  by apply elem_of_sort_uniq.
Qed.

Lemma pre_processing_raises_on_id_key_witness :
  pre_processing 0 default_key default_value default_id (world_of long_id_key) =
  (Raised, logged (LogInfo "Pre-processing done correctly")
             (world_of long_id_key)).
Proof.
  apply (pre_processing_raises_on_id_key (world_of long_id_key) 0 long_id_key
           default_key default_value default_id
           (mkSeries Object [int 7; int 7])
           (mkSeries Object [str "Km"; str "ID"])
           (mkSeries Object [int 10; int 20]));
    try reflexivity; try discriminate.
  - apply (bool_decide_unpack _). vm_compute. exact I.
  - apply (bool_decide_unpack _). vm_compute. exact I.
Defined.

(** ** [translate]: fallback, failure, two columns *)

(** X5: after a successful [translate] the column has as many cells as
    before and none of them is missing: a cell that is not a key of the
    table with a non-null target (a missing cell, a number, an unknown
    string, a key mapped to [null]) holds the fallback. *)
Theorem translate_no_missing w df t s d col path fill :
  heap w !! df = Some t →
  get_col t (str col) = Some s →
  files w !! path = Some d →
  ∃ w1 t1 s1,
    translate df col path fill w = (Returned df, w1) ∧
    heap w1 !! df = Some t1 ∧
    get_col t1 (str col) = Some s1 ∧
    length (s_values s1) = length (s_values s) ∧
    Forall (λ v, v ≠ None) (s_values s1) ∧
    (∀ i c, s_values s !! i = Some c →
            (∀ k v, c = str k → d !! k ≠ Some (Some v)) →
            s_values s1 !! i = Some (str fill)).
Proof.
  intros Ht Hs Hd. pose proof (lookup_lt_Some _ _ _ Ht) as Hlt.
  rewrite (translate_run w df t) by done. rewrite Hd, Hs.
  eexists _, _, _. split; [done|].
  split; [by apply heap_upd_eq|]. split; [apply get_set_col_eq|].
  cbn [translated s_values]. split; [by rewrite length_fmap|]. split.
  - apply Forall_fmap, Forall_forall. intros c _. simpl.
    apply translate_cell_range.
  - intros i c Hi Hno. rewrite list_lookup_fmap, Hi. simpl. f_equal.
    unfold translate_cell, map_dict. destruct c as [[k|z]|]; [|done..].
    destruct (d !! k) as [[v|]|] eqn:Hk; [|done..].
    by destruct (Hno k v eq_refl).
Qed.

Lemma translate_no_missing_witness :
  ∃ w1 t1,
    translate 0 "BodyColorText" "t.json" "Other"
      (world_with colours "t.json" dutch) = (Returned 0, w1) ∧
    heap w1 !! 0 = Some t1 ∧
    get_col t1 (str "BodyColorText") =
      Some (mkSeries Object [str "Black"; str "Other"; str "Other"]).
Proof.
  destruct (translate_no_missing (world_with colours "t.json" dutch) 0 colours
              (mkSeries Object [str "zwart"; str "paars"; None])
              dutch "BodyColorText" "t.json" "Other" eq_refl eq_refl eq_refl)
    as (w1 & t1 & s1 & Hrun & Ht1 & _).
  exists w1, t1. split; [exact Hrun|]. split; [exact Ht1|].
  vm_compute in Hrun. injection Hrun as <-.
  vm_compute in Ht1. injection Ht1 as <-. reflexivity.
Defined.

(** X6: when the translation file cannot be loaded, or the table has no
    column [col], [translate] logs the exception and returns [None], and
    the store is as before. *)
Theorem translate_missing_file_or_column w df t col path fill :
  heap w !! df = Some t →
  files w !! path = None ∨ str col ∉ columns t →
  translate df col path fill w =
  (ReturnedNone,
   logged (LogException "An unexpected error occured while normalizing colors")
     w).
Proof.
  intros Ht Hbad. rewrite (translate_run w df t) by done.
  destruct Hbad as [-> | Hcol]; [done|].
  apply get_col_None in Hcol. rewrite Hcol.
  by destruct (files w !! path).
Qed.

Lemma translate_missing_file_or_column_witness :
  translate 0 "BodyColorText" "missing.json" "Other"
    (world_with colours "t.json" dutch) =
  (ReturnedNone,
   logged (LogException "An unexpected error occured while normalizing colors")
     (world_with colours "t.json" dutch))
  ∧
  translate 0 "Colour" "t.json" "Other" (world_with colours "t.json" dutch) =
  (ReturnedNone,
   logged (LogException "An unexpected error occured while normalizing colors")
     (world_with colours "t.json" dutch)).
Proof.
  split.
  - apply (translate_missing_file_or_column
             (world_with colours "t.json" dutch) 0 colours
             "BodyColorText" "missing.json" "Other" eq_refl).
    left. reflexivity.
  - apply (translate_missing_file_or_column
             (world_with colours "t.json" dutch) 0 colours
             "Colour" "t.json" "Other" eq_refl).
    right. apply (bool_decide_unpack _). vm_compute. exact I.
Defined.

Lemma set_assoc_comm {A : Type} a b (x y : A) cols :
  a ≠ b → a ∈ cols.*1 ∨ b ∈ cols.*1 →
  set_assoc a x (set_assoc b y cols) = set_assoc b y (set_assoc a x cols).
Proof.
  intros Hab. induction cols as [|[c v] cols IH]; intros Hin.
  - destruct Hin as [Hin|Hin]; by apply elem_of_nil in Hin.
  - cbn [set_assoc].
    destruct (decide (c = b)) as [Hcb|Hcb]; destruct (decide (c = a)) as [Hca|Hca];
      try congruence; cbn [set_assoc].
    + subst c. rewrite (decide_False (P := b = a)) by done.
      by rewrite decide_True.
    + subst c. rewrite (decide_False (P := a = b)) by done.
      by rewrite decide_True.
    + rewrite (decide_False (P := c = a)) by done.
      rewrite (decide_False (P := c = b)) by done. f_equal.
      apply IH. rewrite !fmap_cons, !elem_of_cons in Hin. simpl in Hin.
      destruct Hin as [[?|?]|[?|?]]; try congruence; auto.
Qed.

(** X7: translating two different columns of a table gives the same table
    in either order, also when one of the calls fails. *)
Theorem translate_commute w df t a b path fill :
  heap w !! df = Some t →
  a ≠ b →
  heap (translate df b path fill (translate df a path fill w).2).2 =
  heap (translate df a path fill (translate df b path fill w).2).2.
Proof.
  intros Ht Hab. pose proof (lookup_lt_Some _ _ _ Ht) as Hlt.
  assert (Hne : str a ≠ str b) by (intros ?%str_inj; done).
  rewrite (translate_run w df t _ path fill) by done.
  rewrite (translate_run w df t b path fill) by done.
  destruct (files w !! path) as [d|] eqn:Hd.
  2:{ cbn [snd]. rewrite !(translate_run _ df t) by done. cbn [files logged].
      by rewrite Hd. }
  destruct (get_col t (str a)) as [sa|] eqn:Ha;
    destruct (get_col t (str b)) as [sb|] eqn:Hb; cbn [snd].
  - rewrite (translate_run _ df (set_col t (str a) (translated d fill sa)))
      by by apply heap_upd_eq.
    rewrite (translate_run _ df (set_col t (str b) (translated d fill sb)))
      by by apply heap_upd_eq.
    cbn [files logged upd]. rewrite Hd.
    rewrite !get_set_col_ne, Ha, Hb by done. cbn [snd heap logged upd].
    rewrite !list_insert_insert_eq. f_equal. unfold set_col. cbn [df_index df_columns].
    f_equal. apply set_assoc_comm; [done|]. left.
    apply assoc_is_Some. unfold get_col in *. eauto.
  - rewrite (translate_run _ df (set_col t (str a) (translated d fill sa)))
      by by apply heap_upd_eq.
    rewrite (translate_run _ df t) by done.
    cbn [files logged upd]. rewrite Hd, Ha.
    rewrite get_set_col_ne, Hb by done. done.
  - rewrite (translate_run _ df t) by done.
    rewrite (translate_run _ df (set_col t (str b) (translated d fill sb)))
      by by apply heap_upd_eq.
    cbn [files logged upd]. rewrite Hd, Hb.
    rewrite get_set_col_ne, Ha by done. done.
  - rewrite !(translate_run _ df t) by done. cbn [files logged].
    by rewrite Hd, Ha, Hb.
Qed.

Lemma translate_commute_witness :
  heap (translate 0 "Km" "t.json" "Other"
          (translate 0 "BodyColorText" "t.json" "Other"
             (world_with colours "t.json" dutch)).2).2 =
  heap (translate 0 "BodyColorText" "t.json" "Other"
          (translate 0 "Km" "t.json" "Other"
             (world_with colours "t.json" dutch)).2).2.
Proof.
  apply (translate_commute (world_with colours "t.json" dutch) 0 colours
           "BodyColorText" "Km" "t.json" "Other" eq_refl).
  discriminate.
Defined.

(** ** Well-formed tables *)

Lemma wf_set_col t c s :
  wf_df t → length (s_values s) = length (df_index t) → wf_df (set_col t c s).
Proof.
  intros [Hnd Hlen] Hs. split.
  - unfold columns, set_col. cbn [df_columns]. rewrite fst_set_assoc.
    case_decide as Hc; [done|]. apply NoDup_app. split_and!; [done| |].
    + intros x Hx ->%list_elem_of_singleton. done.
    + apply NoDup_singleton.
  - unfold set_col. cbn [df_columns df_index].
    clear Hnd. induction Hlen as [|[c' s'] cols Hhd Htl IH]; cbn [set_assoc].
    + by constructor.
    + case_decide; constructor; done.
Qed.

Lemma wf_drop t c :
  wf_df t →
  wf_df (mkDF (df_index t) (filter (λ p, p.1 ≠ c) (df_columns t))).
Proof.
  intros [Hnd Hlen]. split.
  - unfold columns. cbn [df_columns].
    eapply sublist_NoDup; [exact Hnd|]. apply fmap_sublist, sublist_filter.
  - cbn [df_columns df_index]. apply Forall_forall. intros p Hp.
    apply list_elem_of_filter in Hp as [_ Hp].
    exact (proj1 (Forall_forall _ _) Hlen p Hp).
Qed.

Lemma length_mapM {A B : Type} (f : A → option B) l k :
  mapM f l = Some k → length k = length l.
Proof. intros H%mapM_Some_1. symmetry. by eapply Forall2_length. Qed.

Lemma length_apply f s s' : apply f s = Some s' → length (s_values s') = length (s_values s).
Proof.
  unfold apply. destruct (mapM f (s_values s)) as [k|] eqn:Hk; [|done].
  intros [= <-]. by apply length_mapM in Hk.
Qed.

Lemma length_astype to_numeric ty s s' :
  astype to_numeric ty s = Some s' → length (s_values s') = length (s_values s).
Proof.
  unfold astype. destruct (mapM _ (s_values s)) as [k|] eqn:Hk; [|done].
  intros [= <-]. by apply length_mapM in Hk.
Qed.

Lemma keeps_wf_ret {A : Type} df (a : A) : keeps_wf df (ret a).
Proof. intros w t _ Hwf. by eexists _, t. Qed.

Lemma keeps_wf_bind {A B : Type} df (m : M A) (k : A → M B) :
  keeps_wf df m → (∀ a, keeps_wf df (k a)) → keeps_wf df (bind m k).
Proof.
  intros Hm Hk w t Hlt Hwf. unfold bind.
  destruct (Hm w t Hlt Hwf) as (o & t1 & -> & Hwf1 & Hidx1).
  destruct o as [a|]; [|by eexists _, t1].
  destruct (Hk a w t1 Hlt Hwf1) as (o' & t2 & -> & Hwf2 & Hidx2).
  eexists _, t2. split; [done|]. split; [done | congruence].
Qed.

Lemma keeps_wf_assign_cast to_numeric df new old ty :
  keeps_wf df (assign_cast to_numeric df new old ty).
Proof.
  intros w t Hlt Hwf. destruct (get_col t (str old)) as [s|] eqn:Hs.
  - rewrite (assign_cast_upd to_numeric w df Hlt t new old ty s Hs).
    destruct (astype to_numeric ty s) as [s'|] eqn:Hc; [|by eexists _, t].
    eexists _, _. split; [done|]. split; [|done].
    apply wf_set_col; [done|].
    rewrite (length_astype _ _ _ _ Hc). symmetry. by eapply wf_df_length.
  - unfold assign_cast, bind. rewrite read_upd by done. unfold lift.
    rewrite Hs. by eexists _, t.
Qed.

Lemma keeps_wf_transform_cast to_numeric df new old ty f :
  keeps_wf df
    (bind (read df) (λ t, bind (lift (get_col t (str old)))
       (λ s, bind (lift (apply f s))
          (λ s', bind (write df (set_col t (str old) s'))
             (λ _, assign_cast to_numeric df new old ty))))).
Proof.
  intros w t Hlt Hwf. unfold bind at 1. rewrite read_upd by done.
  unfold bind at 1. unfold lift at 1.
  destruct (get_col t (str old)) as [s|] eqn:Hs; [|by eexists _, t].
  unfold bind at 1. unfold lift at 1.
  destruct (apply f s) as [s'|] eqn:Hf; [|by eexists _, t].
  unfold bind at 1. rewrite write_upd by done.
  assert (Hwf1 : wf_df (set_col t (str old) s')).
  { apply wf_set_col; [done|]. rewrite (length_apply _ _ _ Hf).
    symmetry. by eapply wf_df_length. }
  destruct (keeps_wf_assign_cast to_numeric df new old ty w _ Hlt Hwf1)
    as (o & t2 & -> & Hwf2 & Hidx2).
  by eexists _, t2.
Qed.

Lemma keeps_wf_drop df old :
  keeps_wf df
    (bind (read df) (λ t, bind (lift (drop_col t (str old)))
                            (λ t', write df t'))).
Proof.
  intros w t Hlt Hwf. unfold bind at 1. rewrite read_upd by done.
  unfold bind, lift. unfold drop_col. case_decide; [|by eexists _, t].
  rewrite write_upd by done. eexists _, _. split; [done|].
  split; [by apply wf_drop | done].
Qed.

Lemma keeps_wf_default to_numeric df new ty v :
  keeps_wf df
    (bind (read df) (λ t,
       bind (write df (set_col t (str new)
                         (mkSeries Object (replicate (length (df_index t)) v))))
            (λ _, assign_cast to_numeric df new new ty))).
Proof.
  intros w t Hlt Hwf. unfold bind at 1. rewrite read_upd by done.
  unfold bind at 1. rewrite write_upd by done.
  assert (Hwf1 : wf_df (set_col t (str new)
                          (mkSeries Object (replicate (length (df_index t)) v)))).
  { apply wf_set_col; [done|]. simpl. by rewrite length_replicate. }
  destruct (keeps_wf_assign_cast to_numeric df new new ty w _ Hlt Hwf1)
    as (o & t2 & -> & Hwf2 & Hidx2).
  by eexists _, t2.
Qed.

Lemma keeps_wf_fill_step df fill new : keeps_wf df (fill_step df fill new).
Proof.
  intros w t Hlt Hwf. rewrite fill_step_upd by done.
  destruct (get_col t (str new)) as [s|] eqn:Hs; [|by eexists _, t].
  pose proof (wf_df_length t _ s Hwf Hs) as Hlen.
  destruct (fillna_dict _ _ _ s) as [s'|] eqn:Hfill; [|by eexists _, t].
  eexists _, _. split; [done|]. split; [|done].
  apply wf_set_col; [done|].
  by rewrite (length_fillna_dict _ _ _ _ _ Hlen Hfill).
Qed.

Lemma keeps_wf_normalize_entry to_numeric df fill new e :
  keeps_wf df (normalize_entry to_numeric df fill new e).
Proof.
  unfold normalize_entry. fold (fill_step df fill new).
  apply keeps_wf_bind; [|intros _; apply keeps_wf_fill_step].
  destruct e as [old ty [f|]|ty [v|]].
  - apply keeps_wf_bind; [apply keeps_wf_transform_cast|].
    intros _. case_decide; [apply keeps_wf_drop | apply keeps_wf_ret].
  - apply keeps_wf_bind; [apply keeps_wf_assign_cast|].
    intros _. case_decide; [apply keeps_wf_drop | apply keeps_wf_ret].
  - apply keeps_wf_default.
  - apply keeps_wf_ret.
Qed.

Lemma keeps_wf_normalize_loop to_numeric df fill items :
  keeps_wf df (normalize_loop to_numeric df fill items).
Proof.
  induction items as [|[new e] items IH]; cbn [normalize_loop].
  - apply keeps_wf_ret.
  - apply keeps_wf_bind; [apply keeps_wf_normalize_entry | by intros _].
Qed.

(** X8: the three operations that work in place keep their table well
    formed (distinct column labels, one cell per row in every column) and
    never add, remove or relabel a row, whether they succeed or fail, a
    failure of [normalize] half-way included. *)
Theorem in_place_operations_keep_wf to_numeric geocode w df t :
  heap w !! df = Some t →
  wf_df t →
  (∀ col path fill, still_wf df t (translate df col path fill w).2) ∧
  (∀ col fill, still_wf df t (normalize to_numeric df col fill w).2) ∧
  (∀ col col_name,
     still_wf df t (get_country_codes geocode df col col_name w).2).
Proof.
  intros Ht Hwf. pose proof (lookup_lt_Some _ _ _ Ht) as Hlt. split_and!.
  - intros col path fill. rewrite (translate_run w df t) by done.
    destruct (files w !! path) as [d|]; [|by exists t].
    destruct (get_col t (str col)) as [s|] eqn:Hs; [|by exists t].
    eexists. split; [by apply heap_upd_eq|]. split; [|done].
    apply wf_set_col; [done|]. simpl. rewrite length_fmap.
    symmetry. by eapply wf_df_length.
  - intros col fill. rewrite normalize_run.
    destruct (keeps_wf_normalize_loop to_numeric df fill col w t Hlt Hwf)
      as (o & t' & Hrun & Hwf' & Hidx).
    rewrite (upd_same df t w Ht) in Hrun. rewrite Hrun.
    destruct o as [[]|]; exists t'; (split; [by apply heap_upd_eq | done]).
  - intros col col_name.
    destruct (get_col t (str col)) as [s|] eqn:Hs.
    2:{ unfold get_country_codes, try_except_else, bind, read, lift.
        rewrite Ht, Hs. by exists t. }
    rewrite (get_country_codes_run geocode w df t s) by done.
    destruct (fill_city_dict geocode (unique (s_values s)) [] w)
      as [[D|] w'] eqn:Hfill.
    + assert (Hheap : heap w' = heap w).
      { destruct (decide (Forall (λ c, is_Some (code_of geocode c))
                            (unique (s_values s)))) as [Hall|Hex].
        - destruct (fill_city_dict_ok geocode _ [] w Hall) as (D' & Hrun & _).
          rewrite Hrun in Hfill. by injection Hfill as _ <-.
        - apply not_Forall_Exists in Hex; [|apply _].
          destruct (fill_city_dict_fail geocode (unique (s_values s)) [] w)
            as (? & Hrun & _).
          { eapply Exists_impl; [exact Hex|]. intros c Hc. simpl in Hc.
            by destruct (code_of geocode c); [destruct Hc; eexists|]. }
          rewrite Hrun in Hfill. done. }
      eexists. split.
      { cbn [snd logged heap upd]. apply list_lookup_insert_eq. by rewrite Hheap. }
      split; [|done]. apply wf_set_col; [done|]. simpl. rewrite length_fmap.
      symmetry. by eapply wf_df_length.
    + exists t. split; [|done]. cbn [snd logged heap].
      destruct (decide (Forall (λ c, is_Some (code_of geocode c))
                          (unique (s_values s)))) as [Hall|Hex].
      * destruct (fill_city_dict_ok geocode _ [] w Hall) as (D' & Hrun & _).
        rewrite Hrun in Hfill. done.
      * apply not_Forall_Exists in Hex; [|apply _].
        destruct (fill_city_dict_fail geocode (unique (s_values s)) [] w)
          as (? & Hrun & _).
        { eapply Exists_impl; [exact Hex|]. intros c Hc. simpl in Hc.
          by destruct (code_of geocode c); [destruct Hc; eexists|]. }
        rewrite Hrun in Hfill. by injection Hfill as <-.
Qed.

Lemma in_place_operations_keep_wf_witness :
  still_wf 0 translated_colours
    (normalize numbers_only 0
       [("color", FromSource "BodyColorText" Category None);
        ("mileage", FromSource "Km" (Numeric "h") None)]
       "null" (world_of translated_colours)).2.
Proof.
  assert (Hwf : wf_df translated_colours).
  { split; [apply (bool_decide_unpack _); vm_compute; exact I|].
    repeat constructor. }
  apply (in_place_operations_keep_wf numbers_only one_place
           (world_of translated_colours) 0 translated_colours eq_refl Hwf).
Defined.

Lemma take_rows_length ps vals : length (take_rows ps vals) = length ps.
Proof. unfold take_rows. by rewrite length_fmap. Qed.

(** X9: the table [pre_processing] returns is well formed when the column
    labels of its input are distinct: its own column labels are distinct,
    and every column has one cell per row. *)
Theorem pre_processing_output_wf w df t key value id ids keys vals :
  heap w !! df = Some t →
  NoDup (columns t) →
  get_col t (str id) = Some ids →
  get_col t (str key) = Some keys →
  get_col t (str value) = Some vals →
  id ≠ key → id ≠ value → key ≠ value →
  NoDup (zip (s_values ids) (s_values keys)) →
  keys_apart t key value keys →
  ∃ r w' o,
    pre_processing df key value id w = (Returned r, w') ∧
    heap w' !! r = Some o ∧
    wf_df o.
Proof.
  intros Ht Hcols Hid Hkey Hval Hik Hiv Hkv Hnd Hapart.
  pose proof (pre_processing_result w df t key value id ids keys vals
                Ht Hid Hkey Hval Hik Hiv Hkv Hnd Hapart) as Hrun.
  cbn zeta in Hrun. eexists _, _, _. split; [exact Hrun|]. split.
  { cbn [heap]. by apply list_lookup_middle. }
  clear Hrun. split.
  - unfold columns at 1. cbn [df_columns].
    rewrite fmap_app, fst_fmap_self, fst_fmap_label. apply NoDup_app.
    split_and!.
    + apply NoDup_sort_uniq.
    + intros c Hc Hc'. rewrite elem_of_sort_uniq in Hc.
      rewrite elem_of_carried_columns in Hc'.
      apply list_elem_of_filter in Hc' as [Hc' Hct].
      rewrite !not_elem_of_cons in Hc'. destruct Hc' as (_ & ? & ? & _).
      by destruct (proj1 (Forall_forall _ _) Hapart _ Hc Hct).
    + eapply sublist_NoDup; [exact Hcols|]. apply fmap_sublist.
      etrans; apply sublist_filter.
  - cbn [df_columns df_index]. apply Forall_app. split.
    + apply Forall_fmap, Forall_forall. intros c _. simpl.
      by rewrite !take_rows_length.
    + apply Forall_fmap, Forall_forall. intros p _. simpl.
      by rewrite !take_rows_length, !length_fmap.
Qed.

Lemma pre_processing_output_wf_witness :
  ∃ r w' o,
    pre_processing 0 default_key default_value default_id
      (world_of long_example) = (Returned r, w') ∧
    heap w' !! r = Some o ∧
    wf_df o.
Proof.
  apply (pre_processing_output_wf (world_of long_example) 0
           long_example default_key default_value default_id
           (mkSeries (Numeric "int64") [int 2; int 1; int 2])
           (mkSeries Object [str "Color"; str "Color"; str "City"])
           (mkSeries Object [str "rood"; str "zwart"; str "Bern"]));
    try reflexivity; try discriminate.
  - apply (bool_decide_unpack _). vm_compute. exact I.
  - apply (bool_decide_unpack _). vm_compute. exact I.
  - apply (bool_decide_unpack _). vm_compute. exact I.
Defined.

(** ** [normalize]: defaults, order of the entries, failures, column order *)

Lemma mapM_replicate_Some {A B : Type} (f : A → option B) n a b :
  f a = Some b → mapM f (replicate n a) = Some (replicate n b).
Proof.
  intros Hf. apply mapM_Some_2. induction n; constructor; auto.
Qed.

Lemma mapM_replicate_None {A B : Type} (f : A → option B) n a :
  f a = None → n ≠ 0 → mapM f (replicate n a) = None.
Proof.
  intros Hf Hn. destruct n as [|n]; [done|]. simpl. by rewrite Hf.
Qed.

(** X10: an entry without source column and with a literal default.  When
    the default can be cast, the entry succeeds, the target column holds the
    cast default in every row (a new last column when the name is new) and
    the other columns are untouched.  When the cast raises and the table has
    a row, the call returns [None] and leaves the uncast default column in
    the table.  On a table without rows the cast is never put to the test. *)
Theorem normalize_default_entry to_numeric w df t fill new ty v :
  heap w !! df = Some t →
  (∀ v', cast to_numeric ty v = Some v' → v' ≠ None →
     ∃ t',
       normalize to_numeric df [(new, NoSource ty (Some v))] fill w =
         (Returned df,
          logged (LogInfo "Normalization done correctly") (upd df t' w)) ∧
       get_col t' (str new) =
         Some (mkSeries ty (replicate (length (df_index t)) v')) ∧
       columns t' = (if decide (str new ∈ columns t) then columns t
                     else columns t ++ [str new]) ∧
       ∀ c, c ≠ str new → get_col t' c = get_col t c)
  ∧
  (cast to_numeric ty v = None → df_index t ≠ [] →
     normalize to_numeric df [(new, NoSource ty (Some v))] fill w =
       (ReturnedNone,
        logged (LogException "An unexpected error occured while normalizing")
          (upd df (set_col t (str new)
                     (mkSeries Object (replicate (length (df_index t)) v))) w)))
  ∧
  (df_index t = [] →
     ∃ t',
       normalize to_numeric df [(new, NoSource ty (Some v))] fill w =
         (Returned df,
          logged (LogInfo "Normalization done correctly") (upd df t' w)) ∧
       get_col t' (str new) = Some (mkSeries ty [])).
Proof.
  intros Ht. pose proof (lookup_lt_Some _ _ _ Ht) as Hlt.
  pose proof (upd_same df t w Ht) as Hw.
  set (t1 := set_col t (str new)
               (mkSeries Object (replicate (length (df_index t)) v))).
  assert (Hstart : ∀ o,
    astype to_numeric ty (mkSeries Object (replicate (length (df_index t)) v)) = o →
    normalize_entry to_numeric df fill new (NoSource ty (Some v)) w =
    match o with
    | Some s' =>
        match fillna_dict (str new) (str fill) (df_index t) s' with
        | Some s'' =>
            (Some tt,
             upd df (set_col (set_col t1 (str new) s') (str new) s'') w)
        | None => (None, upd df (set_col t1 (str new) s') w)
        end
    | None => (None, upd df t1 w)
    end).
  { intros o Ho. rewrite <- Hw at 1. unfold normalize_entry.
    fold (fill_step df fill new).
    unfold bind at 1. unfold bind at 1. rewrite read_upd by done.
    unfold bind at 1. rewrite write_upd by done. fold t1.
    rewrite (assign_cast_upd to_numeric w df Hlt t1 new new ty _
               (get_set_col_eq _ _ _)).
    rewrite Ho. destruct o as [s'|]; [|done].
    rewrite fill_step_upd by done. by rewrite get_set_col_eq. }
  split_and!.
  - intros v' Hcast Hv'.
    specialize (Hstart _ eq_refl). unfold astype in Hstart.
    cbn [s_values] in Hstart.
    rewrite (mapM_replicate_Some _ _ _ _ Hcast) in Hstart.
    cbn [fmap option_fmap option_map] in Hstart.
    rewrite fillna_dict_present in Hstart.
    2:{ cbn [s_values]. intros Hx. apply elem_of_replicate in Hx as [Hx _].
        by apply Hv'. }
    eexists. split.
    { rewrite normalize_run, normalize_loop_single, Hstart. done. }
    unfold t1. rewrite !set_col_set_col. split; [apply get_set_col_eq|].
    split; [apply fst_set_assoc|]. intros c Hc. by apply get_set_col_ne.
  - intros Hcast Hrows.
    specialize (Hstart _ eq_refl). unfold astype in Hstart.
    cbn [s_values] in Hstart. rewrite mapM_replicate_None in Hstart; [|done|].
    2:{ by destruct (df_index t). }
    cbn [fmap option_fmap option_map] in Hstart.
    by rewrite normalize_run, normalize_loop_single, Hstart.
  - intros Hrows.
    specialize (Hstart _ eq_refl). unfold astype in Hstart.
    cbn [s_values] in Hstart. rewrite Hrows in Hstart. simpl in Hstart.
    eexists. split.
    { rewrite normalize_run, normalize_loop_single, Hstart. done. }
    by rewrite get_set_col_eq.
Qed.

Lemma normalize_default_entry_witness :
  ∃ t',
    normalize numbers_only 0 [("currency", NoSource Category (Some (str "null")))]
      "null" (world_of translated_colours) =
    (Returned 0,
     logged (LogInfo "Normalization done correctly")
       (upd 0 t' (world_of translated_colours))) ∧
    get_col t' (str "currency") =
      Some (mkSeries Category [str "null"; str "null"]).
Proof.
  destruct (normalize_default_entry numbers_only (world_of translated_colours)
              0 translated_colours "null" "currency" Category (str "null")
              eq_refl) as [Hok _].
  destruct (Hok (str "null") eq_refl) as (t' & Hrun & Hcol & _); [done|].
  exists t'. split; [exact Hrun | exact Hcol].
Defined.

Lemma normalize_loop_app to_numeric df fill a b w :
  normalize_loop to_numeric df fill (a ++ b) w =
  match normalize_loop to_numeric df fill a w with
  | (Some _, w1) => normalize_loop to_numeric df fill b w1
  | (None, w1) => (None, w1)
  end.
Proof.
  revert w. induction a as [|[new e] a IH]; intros w; [done|].
  cbn [app normalize_loop]. unfold bind.
  destruct (normalize_entry to_numeric df fill new e w) as [[[]|] w1]; [|done].
  apply IH.
Qed.

(** X11: [normalize] runs the entries in the order of the dict and stops
    at the first one that fails.  A specification whose first part fails
    gives the very result of that first part, whatever follows it; and
    after a first part that ran through, the rest is run on the table the
    first part left. *)
Theorem normalize_in_order to_numeric df fill a b w :
  (∀ w', normalize to_numeric df a fill w = (ReturnedNone, w') →
         normalize to_numeric df (a ++ b) fill w = (ReturnedNone, w')) ∧
  (∀ w1, normalize_loop to_numeric df fill a w = (Some tt, w1) →
         normalize to_numeric df (a ++ b) fill w =
         normalize to_numeric df b fill w1).
Proof.
  split.
  - intros w'. rewrite !normalize_run, normalize_loop_app.
    by destruct (normalize_loop to_numeric df fill a w) as [[[]|] w1].
  - intros w1 Ha. rewrite !normalize_run, normalize_loop_app, Ha. done.
Qed.

Lemma normalize_in_order_witness :
  normalize numbers_only 0
    ([("mileage", FromSource "Km" (Numeric "h") None)] ++
     [("color", FromSource "BodyColorText" Category None)])
    "null" (world_of translated_colours) =
  (ReturnedNone,
   logged (LogException "An unexpected error occured while normalizing")
     (world_of translated_colours)).
Proof.
  apply (normalize_in_order numbers_only 0 "null"
           [("mileage", FromSource "Km" (Numeric "h") None)]
           [("color", FromSource "BodyColorText" Category None)]
           (world_of translated_colours)).
  reflexivity.
Defined.

(** X12: an entry whose source column is missing from the table, or whose
    transform raises on some cell, fails before anything is written: the
    call logs the exception, returns [None], and the table is as before. *)
Theorem normalize_source_unusable to_numeric w df t fill new old ty tf :
  heap w !! df = Some t →
  get_col t (str old) = None ∨
    (∃ s, get_col t (str old) = Some s ∧ transformed tf s = None) →
  normalize to_numeric df [(new, FromSource old ty tf)] fill w =
  (ReturnedNone,
   logged (LogException "An unexpected error occured while normalizing") w).
Proof.
  intros Ht Hbad. pose proof (lookup_lt_Some _ _ _ Ht) as Hlt.
  pose proof (upd_same df t w Ht) as Hw.
  rewrite normalize_run, normalize_loop_single.
  assert (Hrun : normalize_entry to_numeric df fill new (FromSource old ty tf)
                   (upd df t w) = (None, upd df t w)).
  { unfold normalize_entry, assign_cast.
    unfold bind at 1. unfold bind at 1.
    destruct Hbad as [Hnone|(s & Hs & Htf)].
    - destruct tf as [f|]; unfold bind; rewrite read_upd by done;
        unfold lift; by rewrite Hnone.
    - destruct tf as [f|]; [|done]. simpl in Htf.
      unfold bind. rewrite read_upd by done. unfold lift. by rewrite Hs, Htf. }
  rewrite Hw in Hrun. by rewrite Hrun.
Qed.

Lemma normalize_source_unusable_witness :
  normalize numbers_only 0
    [("color", FromSource "Km" Category (Some upper_transform))]
    "null" (world_of translated_colours) =
  (ReturnedNone,
   logged (LogException "An unexpected error occured while normalizing")
     (world_of translated_colours)).
Proof.
  apply (normalize_source_unusable numbers_only (world_of translated_colours)
           0 translated_colours "null" "color" "Km" Category
           (Some upper_transform) eq_refl).
  right. exists (mkSeries Object [int 10; None]). split; reflexivity.
Defined.

Lemma fst_filter_ne {A : Type} (c : label) (cols : list (label * A)) :
  (filter (λ p, p.1 ≠ c) cols).*1 = filter (λ x, x ≠ c) cols.*1.
Proof.
  induction cols as [|[c' a] cols IH]; [done|].
  rewrite fmap_cons, !filter_cons. cbn [fst].
  destruct (decide (c' ≠ c)); [rewrite fmap_cons; cbn [fst]|]; by rewrite IH.
Qed.

Lemma normalize_entry_source_unusable to_numeric w df t fill new old ty tf :
  df < length (heap w) →
  get_col t (str old) = None ∨
    (∃ s, get_col t (str old) = Some s ∧ transformed tf s = None) →
  normalize_entry to_numeric df fill new (FromSource old ty tf) (upd df t w) =
  (None, upd df t w).
Proof.
  intros Hlt Hbad. unfold normalize_entry, assign_cast.
  unfold bind at 1. unfold bind at 1.
  destruct Hbad as [Hnone|(s & Hs & Htf)].
  - destruct tf as [f|]; unfold bind; rewrite read_upd by done;
      unfold lift; by rewrite Hnone.
  - destruct tf as [f|]; [|done]. simpl in Htf.
    unfold bind. rewrite read_upd by done. unfold lift. by rewrite Hs, Htf.
Qed.

Lemma normalize_entry_source_inv to_numeric w df t fill new old ty tf w1 :
  df < length (heap w) →
  normalize_entry to_numeric df fill new (FromSource old ty tf) (upd df t w) =
    (Some tt, w1) →
  ∃ s s1 s2 s3,
    get_col t (str old) = Some s ∧
    transformed tf s = Some s1 ∧
    astype to_numeric ty s1 = Some s2 ∧
    fillna_dict (str new) (str fill) (df_index t) s2 = Some s3 ∧
    w1 = upd df (after_source_entry t new old tf s1 s2 s3) w.
Proof.
  intros Hlt Hrun.
  destruct (get_col t (str old)) as [s|] eqn:Hs.
  2:{ rewrite normalize_entry_source_unusable in Hrun by auto. done. }
  destruct (transformed tf s) as [s1|] eqn:Htf.
  2:{ rewrite normalize_entry_source_unusable in Hrun by eauto. done. }
  destruct (astype to_numeric ty s1) as [s2|] eqn:Hc.
  2:{ by rewrite (normalize_entry_source_cast_fails to_numeric w df Hlt t
                    fill new old ty tf s s1) in Hrun. }
  rewrite (normalize_entry_source_ok to_numeric w df Hlt t fill new old ty
             tf s s1 s2) in Hrun by done.
  destruct (fillna_dict _ _ _ s2) as [s3|] eqn:Hfill; [|done].
  injection Hrun as <-. by exists s, s1, s2, s3.
Qed.

(** X13: where the columns stand after an entry with a source column,
    whenever the call returns.  A cast in place (target named like the
    source) leaves the column labels as they are.  Otherwise the source label
    is gone, and the target stands where a column of that name stood before
    or, when the name is new, at the end of the table. *)
Theorem normalize_source_entry_columns to_numeric w df t fill new old ty tf
    r w' :
  heap w !! df = Some t →
  normalize to_numeric df [(new, FromSource old ty tf)] fill w =
    (Returned r, w') →
  ∃ t',
    heap w' !! df = Some t' ∧
    columns t' =
      (if decide (new = old) then columns t
       else if decide (str new ∈ columns t)
            then filter (λ c, c ≠ str old) (columns t)
            else filter (λ c, c ≠ str old) (columns t) ++ [str new]).
Proof.
  intros Ht Hret. pose proof (lookup_lt_Some _ _ _ Ht) as Hlt.
  rewrite normalize_run, normalize_loop_single in Hret.
  destruct (normalize_entry to_numeric df fill new (FromSource old ty tf) w)
    as [[[]|] w1] eqn:Hrun; [|done].
  injection Hret as _ <-.
  rewrite <- (upd_same df t w Ht) in Hrun.
  destruct (normalize_entry_source_inv _ _ _ _ _ _ _ _ _ _ Hlt Hrun)
    as (s & s1 & s2 & s3 & Hs & Htf & Hcast & Hfill & ->).
  exists (after_source_entry t new old tf s1 s2 s3). split.
  { cbn [logged heap]. by apply heap_upd_eq. }
  assert (Hold : str old ∈ columns t).
  { apply assoc_is_Some. by eexists. }
  assert (Hbase : columns (after_transform t old tf s1) = columns t).
  { unfold after_transform. destruct tf; [|done].
    unfold columns, set_col. cbn [df_columns]. rewrite fst_set_assoc.
    by rewrite decide_True. }
  unfold after_source_entry, before_fill. cbn zeta.
  set (t2 := set_col (after_transform t old tf s1) (str new) s2).
  assert (Ht2 : columns t2 = if decide (str new ∈ columns t) then columns t
                             else columns t ++ [str new]).
  { unfold t2, columns, set_col. cbn [df_columns]. rewrite fst_set_assoc.
    fold (columns (after_transform t old tf s1)). by rewrite Hbase. }
  destruct (decide (new ≠ old)) as [Hne|Heq]; cycle 1.
  - apply dec_stable in Heq. subst new. rewrite (decide_True (P := old = old)) by done.
    unfold columns at 1, set_col. cbn [df_columns]. rewrite fst_set_assoc.
    fold (columns t2). rewrite Ht2.
    by rewrite !(decide_True (P := str old ∈ columns t)) by done.
  - rewrite (decide_False (P := new = old)) by done.
    unfold columns at 1, set_col. cbn [df_columns]. rewrite fst_set_assoc.
    rewrite fst_filter_ne. fold (columns t2). rewrite Ht2.
    assert (Hstays : ∀ l : list label,
              str new ∈ l → str new ∈ filter (λ c, c ≠ str old) l).
    { intros l Hl. apply list_elem_of_filter. split; [|done].
      by intros ?%str_inj. }
    destruct (decide (str new ∈ columns t)) as [Hin|Hnin].
    + by rewrite decide_True by by apply Hstays.
    + rewrite filter_app, filter_cons, filter_nil.
      rewrite (decide_True (P := str new ≠ str old))
        by (intros ?%str_inj; done).
      rewrite decide_True; [done|]. apply elem_of_app. right. left.
Qed.

Lemma normalize_source_entry_columns_witness :
  ∃ t',
    heap (normalize numbers_only 0
            [("color", FromSource "BodyColorText" Category None)]
            "null" (world_of translated_colours)).2 !! 0 = Some t' ∧
    columns t' = [str "Km"; str "color"].
Proof.
  destruct (normalize_source_entry_columns numbers_only
              (world_of translated_colours) 0 translated_colours "null"
              "color" "BodyColorText" Category None 0
              (normalize numbers_only 0
                 [("color", FromSource "BodyColorText" Category None)]
                 "null" (world_of translated_colours)).2
              eq_refl) as (t' & Ht' & Hcols).
  { vm_compute. reflexivity. }
  exists t'. split; [exact Ht'|]. rewrite Hcols. reflexivity.
Defined.

(** ** [get_country_codes]: missing column, first failure, second call *)

(** X14: on a table without the column of locations [get_country_codes]
    logs the exception and returns [None] without a single query to the
    geocoder; the table is as before. *)
Theorem get_country_codes_missing_column geocode w df t col col_name :
  heap w !! df = Some t →
  str col ∉ columns t →
  get_country_codes geocode df col col_name w =
  (ReturnedNone,
   logged (LogException
             "An unexpected error occured while retrieving country codes form cities")
     w).
Proof.
  intros Ht Hcol. apply get_col_None in Hcol.
  unfold get_country_codes, try_except_else, bind, read, lift.
  by rewrite Ht, Hcol.
Qed.

Lemma get_country_codes_missing_column_witness :
  get_country_codes two_places 0 "Town" default_col_name (world_of cities) =
  (ReturnedNone,
   logged (LogException
             "An unexpected error occured while retrieving country codes form cities")
     (world_of cities)).
Proof.
  apply (get_country_codes_missing_column two_places (world_of cities) 0 cities
           "Town" default_col_name eq_refl).
  apply (bool_decide_unpack _). vm_compute. exact I.
Defined.

Lemma fill_city_dict_first_failure geocode cities acc w :
  Exists (λ c, code_of geocode c = None) cities →
  ∃ pre c post,
    cities = pre ++ c :: post ∧
    Forall (λ x, is_Some (code_of geocode x)) pre ∧
    code_of geocode c = None ∧
    fill_city_dict geocode cities acc w = (None, called (pre ++ [c]) w).
Proof.
  revert acc w. induction cities as [|city cities IH]; intros acc w Hex.
  - by apply Exists_nil in Hex.
  - cbn [fill_city_dict]. unfold bind. rewrite country_code_of_run.
    destruct (code_of geocode city) as [code|] eqn:Hcode.
    + apply Exists_cons in Hex as [Hex|Hex]; [congruence|].
      destruct (IH (set_assoc city code acc) (called [city] w) Hex)
        as (pre & c & post & -> & Hpre & Hc & Hrun).
      exists (city :: pre), c, post. rewrite Hrun, called_called.
      split_and!; [done| |done|done]. constructor; [by rewrite Hcode|done].
    + exists [], city, cities. by split_and!.
Qed.

(** X15: the geocoder is queried for the distinct locations in the order
    in which they first appear in the column, and the loop ends with the
    first location that does not resolve: the locations before it have been
    queried (and resolved), the ones after it are never queried, and the
    call returns [None] with the table as before. *)
Theorem get_country_codes_stops_at_first_failure geocode w df t s col col_name :
  heap w !! df = Some t →
  get_col t (str col) = Some s →
  Exists (λ c, code_of geocode c = None) (s_values s) →
  ∃ pre c post w',
    unique (s_values s) = pre ++ c :: post ∧
    Forall (λ x, is_Some (code_of geocode x)) pre ∧
    code_of geocode c = None ∧
    get_country_codes geocode df col col_name w = (ReturnedNone, w') ∧
    geo_calls w' = geo_calls w ++ pre ++ [c] ∧
    heap w' = heap w.
Proof.
  intros Ht Hs Hex.
  rewrite (get_country_codes_run geocode w df t s) by done.
  destruct (fill_city_dict_first_failure geocode (unique (s_values s)) [] w)
    as (pre & c & post & Hsplit & Hpre & Hc & Hrun).
  { apply Exists_exists in Hex as (c & Hc & Hno). apply Exists_exists.
    exists c. split; [by apply elem_of_unique | done]. }
  rewrite Hrun. exists pre, c, post. eexists. by split_and!.
Qed.

Lemma get_country_codes_stops_at_first_failure_witness :
  ∃ w',
    get_country_codes one_place 0 "City" default_col_name (world_of cities) =
      (ReturnedNone, w') ∧
    geo_calls w' = [str "Zuzwil"; str "Wien"].
Proof.
  destruct (get_country_codes_stops_at_first_failure one_place (world_of cities)
              0 cities
              (mkSeries Object [str "Zuzwil"; str "Wien"; str "Zuzwil"])
              "City" default_col_name eq_refl eq_refl)
    as (pre & c & post & w' & _ & _ & _ & Hrun & _).
  { apply Exists_cons_tl, Exists_cons_hd. reflexivity. }
  exists w'. split; [exact Hrun|].
  vm_compute in Hrun. by injection Hrun as <-.
Defined.

(** X16: the table of codes lives for one call only.  A second call on the
    table the first one returned sends every distinct location to the
    geocoder again and writes the same column: the table does not change
    any more. *)
Theorem get_country_codes_twice geocode w df t s col col_name :
  heap w !! df = Some t →
  get_col t (str col) = Some s →
  col_name ≠ col →
  Forall (λ c, is_Some (code_of geocode c)) (s_values s) →
  ∃ w1 w2,
    get_country_codes geocode df col col_name w = (Returned df, w1) ∧
    get_country_codes geocode df col col_name w1 = (Returned df, w2) ∧
    heap w2 = heap w1 ∧
    geo_calls w1 = geo_calls w ++ unique (s_values s) ∧
    geo_calls w2 = geo_calls w1 ++ unique (s_values s).
Proof.
  intros Ht Hs Hne Hall. pose proof (lookup_lt_Some _ _ _ Ht) as Hlt.
  assert (Hall' : Forall (λ c, is_Some (code_of geocode c)) (unique (s_values s))).
  { apply Forall_forall. intros c Hc. rewrite elem_of_unique in Hc.
    exact (proj1 (Forall_forall _ _) Hall c Hc). }
  assert (Hcodes : ∀ D : list (cell * string),
            (∀ c, assoc c D = if decide (c ∈ unique (s_values s))
                              then code_of geocode c else assoc c []) →
            map_city D <$> s_values s =
            (λ c, match code_of geocode c with
                  | Some code => str code | None => None end) <$> s_values s).
  { intros D HD. apply list_fmap_ext. intros i c Hc. unfold map_city.
    rewrite HD, decide_True; [done|].
    apply elem_of_unique. by eapply list_elem_of_lookup_2. }
  rewrite (get_country_codes_run geocode w df t s) by done.
  destruct (fill_city_dict_ok geocode _ [] w Hall') as (D & Hrun & HD).
  rewrite Hrun, (Hcodes D HD).
  set (codes := mkSeries Object _).
  set (w1 := logged _ (upd df (set_col t (str col_name) codes) _)).
  assert (Ht1 : heap w1 !! df = Some (set_col t (str col_name) codes)).
  { by apply heap_upd_eq. }
  assert (Hs1 : get_col (set_col t (str col_name) codes) (str col) = Some s).
  { rewrite get_set_col_ne; [done|]. by intros ?%str_inj. }
  exists w1. rewrite (get_country_codes_run geocode w1 df _ s col col_name Ht1 Hs1).
  destruct (fill_city_dict_ok geocode _ [] w1 Hall') as (D' & Hrun' & HD').
  rewrite Hrun', (Hcodes D' HD'). fold codes.
  eexists. split; [done|]. split; [done|]. split_and!; [|done|done].
  subst w1. cbn [heap logged upd called]. rewrite set_col_set_col.
  by rewrite list_insert_insert_eq.
Qed.

Lemma get_country_codes_twice_witness :
  ∃ w1 w2,
    get_country_codes two_places 0 "City" default_col_name (world_of cities) =
      (Returned 0, w1) ∧
    get_country_codes two_places 0 "City" default_col_name w1 = (Returned 0, w2) ∧
    heap w2 = heap w1 ∧
    geo_calls w2 = [str "Zuzwil"; str "Wien"; str "Zuzwil"; str "Wien"].
Proof.
  destruct (get_country_codes_twice two_places (world_of cities) 0 cities
              (mkSeries Object [str "Zuzwil"; str "Wien"; str "Zuzwil"])
              "City" default_col_name eq_refl eq_refl)
    as (w1 & w2 & Hrun1 & Hrun2 & Hheap & Hc1 & Hc2).
  { discriminate. }
  { repeat constructor; by eexists. }
  exists w1, w2. split_and!; [done..|]. rewrite Hc2, Hc1. reflexivity.
Defined.

(** ** [translate] before [normalize] *)

(** X17: a translated column can always be upper-cased.  When the targets
    of the translation table are strings (or [null]) and they and the
    fallback are ASCII text, [translate] followed by [normalize] with the
    upper-case transform and a categorical target succeeds on every table
    that has the column.  The target column then holds, row by row, the
    translated value upper-cased: a string without lower-case letter, fully
    upper-case exactly when it holds a letter. *)
Theorem translate_then_upper to_numeric w df t s d col path fill new nfill :
  heap w !! df = Some t →
  wf_df t →
  get_col t (str col) = Some s →
  files w !! path = Some d →
  map_Forall (λ _ v, text_or_null v = true) d →
  map_Forall (λ _ v, ascii_cell v = true) d →
  is_ascii fill = true →
  ∃ w1 w2 t2 s2,
    translate df col path fill w = (Returned df, w1) ∧
    normalize to_numeric df
      [(new, FromSource col Category (Some upper_transform))] nfill w1 =
      (Returned df, w2) ∧
    heap w2 !! df = Some t2 ∧
    get_col t2 (str new) = Some s2 ∧
    s_dtype s2 = Category ∧
    length (s_values s2) = length (df_index t) ∧
    Forall2 upper_of (translate_cell d fill <$> s_values s) (s_values s2) ∧
    Forall upper_cased (s_values s2).
Proof.
  intros Ht Hwf Hs Hd Htext _ _. pose proof (lookup_lt_Some _ _ _ Ht) as Hlt.
  rewrite (translate_run w df t) by done. rewrite Hd, Hs.
  set (t1 := set_col t (str col) (translated d fill s)).
  set (w1 := logged _ (upd df t1 w)).
  assert (Ht1 : heap w1 !! df = Some t1) by by apply heap_upd_eq.
  assert (Hlt1 : df < length (heap w1)) by by eapply lookup_lt_Some.
  assert (Hstr : Forall (λ v, is_Some (upper_transform v))
                   (translate_cell d fill <$> s_values s)).
  { apply Forall_fmap, Forall_forall. intros c _. simpl.
    destruct (translate_cell_range d fill c) as [Hne [->|[k Hk]]];
      [by eexists|].
    specialize (Htext k _ Hk). simpl in Htext.
    destruct (translate_cell d fill c) as [[x|z]|]; [by eexists|done..]. }
  apply mapM_is_Some in Hstr as [vs Hvs].
  assert (Hcased : Forall upper_cased vs).
  { eapply mapM_Forall_out; [|exact Hvs].
    intros a b. apply upper_transform_upper_cased. }
  assert (Hup : Forall2 upper_of (translate_cell d fill <$> s_values s) vs).
  { apply mapM_Some_1 in Hvs. eapply Forall2_impl; [exact Hvs|].
    intros c v Hcv. destruct c as [[x|z]|]; simplify_eq/=. by exists x. }
  assert (Hfill : fillna_dict (str new) (str nfill) (df_index t1)
                    (mkSeries Category vs) = Some (mkSeries Category vs)).
  { apply fillna_dict_present. cbn [s_values]. intros Hin.
    apply (proj1 (Forall_forall _ _) Hcased) in Hin.
    by destruct Hin as (x & ? & _). }
  pose proof (normalize_entry_source_ok to_numeric w1 df Hlt1 t1 nfill new col
                Category (Some upper_transform) (translated d fill s)
                (mkSeries Object vs) (mkSeries Category vs)) as Hrun.
  rewrite Hfill, (upd_same df t1 w1 Ht1) in Hrun.
  exists w1. eexists _, _, _. split; [done|]. split.
  { rewrite normalize_run, normalize_loop_single, Hrun; [done| | |].
    - apply get_set_col_eq.
    - simpl. unfold apply. cbn [translated s_values]. by rewrite Hvs.
    - apply astype_object_like. by left. }
  split; [by apply heap_upd_eq|].
  unfold after_source_entry. split; [apply get_set_col_eq|].
  split; [done|]. split; [|by split].
  cbn [s_values].
  apply length_mapM in Hvs. rewrite length_fmap in Hvs.
  pose proof (wf_df_length t _ s Hwf Hs) as Hlen.
  unfold label, cell in *. lia.
Qed.

Lemma translate_then_upper_witness :
  ∃ w1 w2 t2,
    translate 0 "BodyColorText" "t.json" "Other"
      (world_with colours "t.json" dutch) = (Returned 0, w1) ∧
    normalize numbers_only 0
      [("color", FromSource "BodyColorText" Category (Some upper_transform))]
      "null" w1 = (Returned 0, w2) ∧
    heap w2 !! 0 = Some t2 ∧
    get_col t2 (str "color") =
      Some (mkSeries Category [str "BLACK"; str "OTHER"; str "OTHER"]).
Proof.
  assert (Hwf : wf_df colours).
  { split; [apply (bool_decide_unpack _); vm_compute; exact I|].
    repeat constructor. }
  destruct (translate_then_upper numbers_only
              (world_with colours "t.json" dutch) 0 colours
              (mkSeries Object [str "zwart"; str "paars"; None])
              dutch "BodyColorText" "t.json" "Other" "color" "null"
              eq_refl Hwf eq_refl eq_refl)
    as (w1 & w2 & t2 & s2 & Hrun1 & Hrun2 & Ht2 & _).
  { apply (bool_decide_unpack _). vm_compute. exact I. }
  { apply (bool_decide_unpack _). vm_compute. exact I. }
  { reflexivity. }
  exists w1, w2, t2. split; [exact Hrun1|]. split; [exact Hrun2|].
  split; [exact Ht2|].
  vm_compute in Hrun1. injection Hrun1 as <-.
  vm_compute in Hrun2. injection Hrun2 as <-.
  vm_compute in Ht2. injection Ht2 as <-. reflexivity.
Defined.

(** ** The driver *)

Lemma lower_ascii_idemp a : lower_ascii (lower_ascii a) = lower_ascii a.
Proof. by destruct a as [[] [] [] [] [] [] [] []]. Qed.

Lemma letter_upper_ascii a :
  is_lower (upper_ascii a) || is_upper (upper_ascii a) = is_lower a || is_upper a.
Proof. by destruct a as [[] [] [] [] [] [] [] []]. Qed.

Lemma letter_lower_ascii a :
  is_lower (lower_ascii a) || is_upper (lower_ascii a) = is_lower a || is_upper a.
Proof. by destruct a as [[] [] [] [] [] [] [] []]. Qed.

Lemma title_from_idemp b x : title_from b (title_from b x) = title_from b x.
Proof.
  revert b. induction x as [|a x IH]; intros b; [done|].
  cbn [title_from]. destruct b.
  - by rewrite lower_ascii_idemp, letter_lower_ascii, IH.
  - by rewrite upper_ascii_idemp, letter_upper_ascii, IH.
Qed.

Lemma is_ascii_title_from b x :
  is_ascii x = true → is_ascii (title_from b x) = true.
Proof.
  revert b. induction x as [|a x IH]; intros b; [done|].
  cbn [is_ascii title_from]. intros [Ha Hx]%andb_prop.
  rewrite (IH _ Hx), andb_true_r. clear IH Hx.
  destruct b; by destruct a as [[] [] [] [] [] [] [] []].
Qed.

(** X18: the transform the driver applies to the make, on ASCII text (a
    listed make is kept as it is written, any other string is title-cased).
    The result is ASCII text again, and the transform leaves its own result
    alone when it is applied once more. *)
Theorem make_transform_stable x v :
  is_ascii x = true →
  make_transform (str x) = Some v →
  ascii_cell v = true ∧ make_transform v = Some v.
Proof.
  intros Hx. simpl. intros [= <-]. split.
  - simpl. case_decide; [done|]. by apply is_ascii_title_from.
  - destruct (decide (x ∈ listed_makes)) as [Hin|Hnin]; simpl.
    + by rewrite decide_True.
    + unfold title. rewrite title_from_idemp. by case_decide.
Qed.

Lemma make_transform_stable_witness :
  make_transform (str "Alfa romeo") = Some (str "Alfa Romeo") ∧
  make_transform (str "Alfa Romeo") = Some (str "Alfa Romeo").
Proof.
  split; [reflexivity|].
  exact (proj2 (make_transform_stable "Alfa romeo" (str "Alfa Romeo")
                  eq_refl eq_refl)).
Defined.

Lemma others_kept_refl df w : others_kept df w w.
Proof. by intros l _. Qed.

Lemma others_kept_trans df w1 w2 w3 :
  others_kept df w1 w2 → others_kept df w2 w3 → others_kept df w1 w3.
Proof. intros H1 H2 l Hl. by rewrite H2, H1. Qed.

Lemma keeps_others_frames {A : Type} df (m : M A) :
  frames df m → keeps_others df m.
Proof. intros Hm w. by destruct (Hm w) as (_ & _ & _ & ?). Qed.

Lemma keeps_others_bind {A B : Type} df (m : M A) (k : A → M B) :
  keeps_others df m → (∀ a, keeps_others df (k a)) → keeps_others df (bind m k).
Proof.
  intros Hm Hk w. unfold bind. specialize (Hm w).
  destruct (m w) as [[a|] w1]; simpl in *; [|done].
  eapply others_kept_trans; [exact Hm | apply Hk].
Qed.

Lemma keeps_others_fill_city_dict geocode df cities acc :
  keeps_others df (fill_city_dict geocode cities acc).
Proof.
  revert acc. induction cities as [|city cities IH]; intros acc.
  - intros w. apply others_kept_refl.
  - cbn [fill_city_dict]. apply keeps_others_bind; [|intros code; apply IH].
    intros w. rewrite country_code_of_run. by intros l _.
Qed.

Lemma keeps_others_try {A : Type} df (body : M A) msg (orelse : A → M loc) w :
  keeps_others df body → (∀ a, keeps_others df (orelse a)) →
  others_kept df w (try_except_else body msg orelse w).2.
Proof.
  intros Hb Ho. unfold try_except_else. specialize (Hb w).
  destruct (body w) as [[a|] w1]; simpl in *; [|done].
  specialize (Ho a w1). destruct (orelse a w1) as [[r|] w2]; simpl in *;
    by eapply others_kept_trans.
Qed.

Lemma keeps_others_log_ret df r (l : loc) : keeps_others df (bind (log r) (λ _, ret l)).
Proof. by intros w l' _. Qed.

Lemma others_kept_translate df col path fill w :
  others_kept df w (translate df col path fill w).2.
Proof.
  apply keeps_others_try; [|intros _; apply keeps_others_log_ret].
  apply keeps_others_bind; [by intros w' l _|]. intros d.
  apply keeps_others_frames. solve_frames.
Qed.

Lemma others_kept_normalize to_numeric df col fill w :
  others_kept df w (normalize to_numeric df col fill w).2.
Proof.
  apply keeps_others_try; [|intros _; apply keeps_others_log_ret].
  apply keeps_others_frames, frames_normalize_loop.
Qed.

Lemma others_kept_get_country_codes geocode df col col_name w :
  others_kept df w (get_country_codes geocode df col col_name w).2.
Proof.
  apply keeps_others_try; [|intros _; apply keeps_others_log_ret].
  apply keeps_others_bind; [apply keeps_others_frames, frames_read|]. intros t.
  apply keeps_others_bind; [apply keeps_others_frames, frames_lift|]. intros s.
  apply keeps_others_bind; [apply keeps_others_fill_city_dict|]. intros D.
  apply keeps_others_frames. solve_frames.
Qed.

Lemma try_log_ret_outcome {A : Type} (body : M A) msg r df w :
  (try_except_else body msg (λ _, bind (log r) (λ _, ret df)) w).1 = Returned df ∨
  (try_except_else body msg (λ _, bind (log r) (λ _, ret df)) w).1 = ReturnedNone.
Proof.
  unfold try_except_else. destruct (body w) as [[a|] w1]; simpl; auto.
Qed.

Lemma chain_state_stage norm w op msg st :
  (∀ l w', others_kept l w' (op l w').2) →
  (∀ l w', (op l w').1 = Returned l ∨ (op l w').1 = ReturnedNone) →
  chain_state norm w st → chain_state norm w (stage op msg st).
Proof.
  intros Hkept Hout [Hres Hw]. destruct st as [o w1]. simpl in *.
  destruct Hres as [-> | ->]; simpl.
  - split; [apply Hout|]. eapply others_kept_trans; [exact Hw | apply Hkept].
  - split; [by right | done].
Qed.

Lemma chain_state_normalization_chain to_numeric geocode norm w :
  chain_state norm w (normalization_chain to_numeric geocode norm w).
Proof.
  unfold normalization_chain.
  apply chain_state_stage;
    [intros; apply others_kept_normalize | intros; apply try_log_ret_outcome |].
  apply chain_state_stage;
    [intros; apply others_kept_get_country_codes
    | intros; apply try_log_ret_outcome |].
  apply chain_state_stage;
    [intros; apply others_kept_translate | intros; apply try_log_ret_outcome |].
  apply chain_state_stage;
    [intros; apply others_kept_translate | intros; apply try_log_ret_outcome |].
  split; [apply try_log_ret_outcome | apply others_kept_translate].
Qed.

(** X19: the driver normalizes a deep copy.  When the reshape returns a
    table, the lines up to the normalization raise nothing; they end with
    the copy ([norm]) or with [None]; and the reshaped table [pre] and every
    table that was in the store before, the input among them, are exactly
    what they were after the reshape, whatever the translation, geocoding or
    normalization stages did to the copy. *)
Theorem wrangle_keeps_reshaped to_numeric geocode data w pre w1 :
  pre_processing data default_key default_value default_id w = (Returned pre, w1) →
  ((wrangle to_numeric geocode data w).1 = Returned (S pre) ∨
   (wrangle to_numeric geocode data w).1 = ReturnedNone) ∧
  is_Some (heap w1 !! pre) ∧
  heap (wrangle to_numeric geocode data w).2 !! pre = heap w1 !! pre ∧
  (∀ l, l < length (heap w) →
        heap (wrangle to_numeric geocode data w).2 !! l = heap w !! l).
Proof.
  intros Hpre.
  destruct (pre_processing_store w data default_key default_value default_id)
    as (Hold & Hnew & _).
  rewrite Hpre in Hold, Hnew. cbn [fst snd] in Hold, Hnew.
  destruct (Hnew pre eq_refl) as [-> Hlen].
  assert (Hsome : is_Some (heap w1 !! length (heap w))).
  { apply lookup_lt_is_Some. lia. }
  destruct Hsome as [o Ho].
  unfold wrangle. rewrite Hpre. unfold copy_deep, bind, read, alloc.
  unfold loc in *. rewrite Ho. rewrite Hlen. cbv beta iota zeta.
  set (w2 := mkWorld (heap w1 ++ [o]) (logs w1) (files w1) (geo_calls w1)).
  destruct (chain_state_normalization_chain to_numeric geocode
              (S (length (heap w))) w2) as [Hres Hkept].
  split; [exact Hres|]. split; [by eexists|]. split.
  - rewrite Hkept by lia. subst w2. cbn [heap].
    by rewrite lookup_app_l by lia.
  - intros l Hl. rewrite Hkept by lia. subst w2. cbn [heap].
    rewrite lookup_app_l by lia. by apply Hold.
Qed.

Lemma wrangle_keeps_reshaped_witness :
  heap (wrangle numbers_only two_places 0 (world_of long_example)).2 !! 0 =
  Some long_example.
Proof.
  destruct (wrangle_keeps_reshaped numbers_only two_places 0
              (world_of long_example) 1
              (pre_processing 0 default_key default_value default_id
                 (world_of long_example)).2) as (_ & _ & _ & Hold).
  { vm_compute. reflexivity. }
  rewrite Hold; [reflexivity | simpl; lia].
Defined.

Lemma pre_processing_other_fields df key value id w :
  files (pre_processing df key value id w).2 = files w ∧
  geo_calls (pre_processing df key value id w).2 = geo_calls w.
Proof.
  unfold pre_processing, try_except_else, bind, read, lift, ret, log, alloc.
  destruct (heap w !! df) as [t|]; [|done].
  destruct (set_index_unstack _ _ _ _) as [df1|]; [|done].
  destruct (groupby_first _ _ _ _) as [df2|]; [|done].
  by destruct (merge_on_index _ _ _).
Qed.

Lemma translate_no_file df col path fill w :
  files w !! path = None →
  translate df col path fill w =
  (ReturnedNone,
   logged (LogException "An unexpected error occured while normalizing colors") w).
Proof.
  intros Hfile. unfold translate, try_except_else, bind, load_json.
  by rewrite Hfile.
Qed.

Lemma on_none_run msg w :
  on_none msg w = (ReturnedNone, logged (LogException msg) w).
Proof. done. Qed.

(** X20: a missing translation file ends the run without a result and
    without a single query to the geocoder.  The three translations fail one
    after the other, and the geocoding and the normalization, which are then
    called with [None], fail in turn: five exceptions are logged after the
    reshape and the driver is left with [None]. *)
Theorem wrangle_without_translations to_numeric geocode data w pre w1 :
  pre_processing data default_key default_value default_id w = (Returned pre, w1) →
  files w !! default_trans_filepath = None →
  ∃ w',
    wrangle to_numeric geocode data w = (ReturnedNone, w') ∧
    geo_calls w' = geo_calls w ∧
    logs w' = logs w1 ++
      [LogException "An unexpected error occured while normalizing colors";
       LogException "An unexpected error occured while normalizing colors";
       LogException "An unexpected error occured while normalizing colors";
       LogException
         "An unexpected error occured while retrieving country codes form cities";
       LogException "An unexpected error occured while normalizing"].
Proof.
  intros Hpre Hfile.
  destruct (pre_processing_store w data default_key default_value default_id)
    as (_ & Hnew & _).
  destruct (pre_processing_other_fields data default_key default_value
              default_id w) as [Hfiles Hcalls].
  rewrite Hpre in Hnew, Hfiles, Hcalls. cbn [fst snd] in Hnew, Hfiles, Hcalls.
  destruct (Hnew pre eq_refl) as [-> Hlen].
  assert (Hsome : is_Some (heap w1 !! length (heap w))).
  { apply lookup_lt_is_Some. lia. }
  destruct Hsome as [o Ho].
  unfold wrangle. rewrite Hpre. unfold copy_deep, bind, read, alloc.
  unfold loc in *. rewrite Ho. cbv beta iota zeta. unfold normalization_chain.
  rewrite translate_no_file by (cbn [files]; by rewrite Hfiles).
  cbn [stage]. rewrite !on_none_run.
  eexists. split; [reflexivity|]. split.
  - done.
  - unfold log. cbn [logs logged snd]. by rewrite <- !app_assoc.
Qed.

Lemma wrangle_without_translations_witness :
  (wrangle numbers_only two_places 0 (world_of long_example)).1 = ReturnedNone.
Proof.
  destruct (wrangle_without_translations numbers_only two_places 0
              (world_of long_example) 1
              (pre_processing 0 default_key default_value default_id
                 (world_of long_example)).2) as (w' & Hw & _).
  { vm_compute. reflexivity. }
  { reflexivity. }
  by rewrite Hw.
Defined.

(** ** The column labels after [normalize] *)

Lemma elem_of_columns_set_col t c s x :
  x ∈ columns (set_col t c s) ↔ x = c ∨ x ∈ columns t.
Proof.
  unfold columns, set_col. cbn [df_columns]. rewrite fst_set_assoc.
  case_decide as Hc.
  - split; [by right|]. by intros [->|].
  - rewrite elem_of_app, list_elem_of_singleton. tauto.
Qed.

Lemma normalize_entry_default_run to_numeric w df t fill new ty v :
  df < length (heap w) →
  normalize_entry to_numeric df fill new (NoSource ty (Some v)) (upd df t w) =
  match astype to_numeric ty
          (mkSeries Object (replicate (length (df_index t)) v)) with
  | Some s' =>
      let t2 := set_col
                  (set_col t (str new)
                     (mkSeries Object (replicate (length (df_index t)) v)))
                  (str new) s' in
      match fillna_dict (str new) (str fill) (df_index t) s' with
      | Some s'' => (Some tt, upd df (set_col t2 (str new) s'') w)
      | None => (None, upd df t2 w)
      end
  | None =>
      (None,
       upd df (set_col t (str new)
                 (mkSeries Object (replicate (length (df_index t)) v))) w)
  end.
Proof.
  intros Hlt. unfold normalize_entry. fold (fill_step df fill new).
  unfold bind at 1. unfold bind at 1. rewrite read_upd by done.
  unfold bind at 1. rewrite write_upd by done.
  rewrite (assign_cast_upd to_numeric w df Hlt _ new new ty _
             (get_set_col_eq _ _ _)).
  destruct (astype _ _ _) as [s'|]; [|done].
  rewrite fill_step_upd by done. by rewrite get_set_col_eq.
Qed.

Lemma normalize_entry_labels to_numeric w df t fill new e w1 :
  df < length (heap w) →
  normalize_entry to_numeric df fill new e (upd df t w) = (Some tt, w1) →
  ∃ t1, w1 = upd df t1 w ∧
    ∀ c, c ∈ columns t1 ↔
         c = str new ∨ (c ∈ columns t ∧ ¬ consumes c (new, e)).
Proof.
  intros Hlt Hrun. destruct e as [old ty tf|ty [v|]].
  - destruct (normalize_entry_source_inv _ _ _ _ _ _ _ _ _ _ Hlt Hrun)
      as (s & s1 & s2 & s3 & Hs & Htf & Hc & Hfill & ->).
    eexists. split; [done|]. intros c.
    assert (Hold : str old ∈ columns t).
    { apply assoc_is_Some. by eexists. }
    assert (Hbase : ∀ x, x ∈ columns (after_transform t old tf s1) ↔
                         x ∈ columns t).
    { intros x. unfold after_transform. destruct tf; [|done].
      rewrite elem_of_columns_set_col. split; [by intros [->|]|by right]. }
    unfold after_source_entry, before_fill. cbn zeta.
    rewrite elem_of_columns_set_col.
    unfold consumes. cbn [snd fst].
    destruct (decide (new ≠ old)) as [Hne|Heq].
    + unfold columns at 1. cbn [df_columns]. rewrite fst_filter_ne.
      rewrite list_elem_of_filter.
      fold (columns (set_col (after_transform t old tf s1) (str new) s2)).
      rewrite elem_of_columns_set_col, Hbase.
      destruct (decide (c = str old)); tauto.
    + rewrite elem_of_columns_set_col, Hbase. tauto.
  - rewrite normalize_entry_default_run in Hrun by done.
    destruct (astype _ _ _) as [s'|]; [|done]. cbn zeta in Hrun.
    destruct (fillna_dict _ _ _ s') as [s''|]; [|done].
    injection Hrun as <-. eexists. split; [done|]. intros c.
    rewrite !elem_of_columns_set_col. unfold consumes. cbn [snd]. tauto.
  - rewrite (normalize_entry_no_source to_numeric w df Hlt) in Hrun.
    destruct (get_col t (str new)) as [s|] eqn:Hs; [|done].
    destruct (fillna_dict _ _ _ s) as [s'|]; [|done].
    injection Hrun as <-. eexists. split; [done|]. intros c.
    rewrite elem_of_columns_set_col. unfold consumes. cbn [snd].
    assert (str new ∈ columns t) by (apply assoc_is_Some; by eexists).
    split; [tauto|]. intros [->|[? _]]; by right.
Qed.

Lemma normalize_loop_labels to_numeric w df fill items :
  df < length (heap w) →
  ∀ t w1,
    normalize_loop to_numeric df fill items (upd df t w) = (Some tt, w1) →
    ∃ t1, w1 = upd df t1 w ∧ ∀ c, c ∈ columns t1 ↔ final_label items t c.
Proof.
  intros Hlt. induction items as [|[new e] items IH]; intros t w1 Hrun.
  - injection Hrun as <-. exists t. split; [done|]. intros c. split.
    + intros Hc. right. split; [done|]. by intros p ?%elem_of_nil.
    + intros [(a & k & e & b & Heq & _)|[Hc _]]; [|done].
      by destruct a.
  - cbn [normalize_loop] in Hrun. unfold bind in Hrun.
    destruct (normalize_entry to_numeric df fill new e (upd df t w))
      as [[[]|] w0] eqn:Hentry; [|done].
    destruct (normalize_entry_labels _ _ _ _ _ _ _ _ Hlt Hentry)
      as (t0 & -> & Hstep).
    destruct (IH _ _ Hrun) as (t1 & -> & Hrest).
    exists t1. split; [done|]. intros c. rewrite Hrest. unfold final_label.
    split.
    + intros [(a & k & e' & b & -> & -> & Hb)|[Hc Hno]].
      * left. by exists ((new, e) :: a), k, e', b.
      * apply Hstep in Hc as [->|[Hc Hnew]].
        -- left. exists [], new, e, items. split_and!; [done..|].
           exact Hno.
        -- right. split; [done|]. intros p [->|Hp]%elem_of_cons; auto.
    + intros [(a & k & e' & b & Heq & -> & Hb)|[Hc Hno]].
      * destruct a as [|p a]; simplify_eq/=.
        -- right. split; [|done]. apply Hstep. by left.
        -- left. by exists a, k, e', b.
      * right. split.
        -- apply Hstep. right. split; [done|]. apply Hno. by left.
        -- intros p Hp. apply Hno. by right.
Qed.

(** X21: the column labels after a [normalize] that ran through.  They are
    the keys of the specification dict that no later entry reads as its
    source under another name, and the labels the table had that no entry
    reads as source under another name; nothing else.  The call returns the
    object it was given. *)
Theorem normalize_final_labels to_numeric w df t col fill r w' :
  heap w !! df = Some t →
  normalize to_numeric df col fill w = (Returned r, w') →
  r = df ∧
  ∃ t', heap w' !! df = Some t' ∧
        ∀ c, c ∈ columns t' ↔ final_label col t c.
Proof.
  intros Ht Hrun. pose proof (lookup_lt_Some _ _ _ Ht) as Hlt.
  rewrite normalize_run in Hrun.
  destruct (normalize_loop to_numeric df fill col w) as [[[]|] w1] eqn:Hloop;
    [|done].
  injection Hrun as <- <-. split; [done|].
  rewrite <- (upd_same df t w Ht) in Hloop.
  destruct (normalize_loop_labels _ _ _ _ _ Hlt _ _ Hloop) as (t1 & -> & Hlab).
  exists t1. split; [|done]. cbn [logged heap]. by apply heap_upd_eq.
Qed.

Lemma normalize_final_labels_witness :
  ∃ t', heap (normalize numbers_only 0
                [("color", FromSource "BodyColorText" Category None)]
                "null" (world_of translated_colours)).2 !! 0 = Some t' ∧
        str "color" ∈ columns t' ∧ str "BodyColorText" ∉ columns t'.
Proof.
  destruct (normalize_final_labels numbers_only (world_of translated_colours)
              0 translated_colours
              [("color", FromSource "BodyColorText" Category None)] "null" 0
              (normalize numbers_only 0
                 [("color", FromSource "BodyColorText" Category None)]
                 "null" (world_of translated_colours)).2 eq_refl)
    as (_ & t' & Ht' & Hlab).
  { vm_compute. reflexivity. }
  exists t'. split; [exact Ht'|]. split.
  - apply Hlab. left.
    exists [], "color", (FromSource "BodyColorText" Category None), [].
    split; [reflexivity|].
    split; [reflexivity|]. intros p Hp. by apply elem_of_nil in Hp.
  - intros Hc. apply Hlab in Hc as [(a & k & e & b & Heq & Hk & _)|[_ Hno]].
    + destruct a as [|p [|q a]]; simplify_eq/=.
    + apply (Hno ("color", FromSource "BodyColorText" Category None)).
      * apply list_elem_of_singleton. reflexivity.
      * split; [reflexivity | discriminate].
Defined.

(** X22: the specification dict of the driver.  When its [normalize] runs
    through, every key of [norm_dict] labels a column of the result, which is
    what the selection of the integration sheet relies on, and none of the
    source columns it renames is left. *)
Theorem norm_dict_labels to_numeric w df t fill r w' :
  heap w !! df = Some t →
  normalize to_numeric df norm_dict fill w = (Returned r, w') →
  ∃ t', heap w' !! df = Some t' ∧
        (∀ k, k ∈ norm_dict.*1 → str k ∈ columns t') ∧
        (∀ old, old ∈ renamed_sources norm_dict → str old ∉ columns t').
Proof.
  intros Ht Hrun. pose proof (lookup_lt_Some _ _ _ Ht) as Hlt.
  rewrite normalize_run in Hrun.
  destruct (normalize_loop to_numeric df fill norm_dict w) as [[[]|] w1]
    eqn:Hloop; [|done].
  injection Hrun as <- <-.
  rewrite <- (upd_same df t w Ht) in Hloop.
  destruct (normalize_loop_labels _ _ _ _ _ Hlt _ _ Hloop) as (t1 & -> & Hlab).
  exists t1. split; [cbn [logged heap]; by apply heap_upd_eq|].
  assert (Hkeys : Forall (λ k, Forall (λ p, ¬ consumes (str k) p) norm_dict)
                    norm_dict.*1).
  { apply (bool_decide_unpack _). vm_compute. exact I. }
  assert (Hsrc : Forall (λ old,
                   Exists (λ p, consumes (str old) p) norm_dict ∧
                   old ∉ norm_dict.*1)
                   (renamed_sources norm_dict)).
  { apply (bool_decide_unpack _). vm_compute. exact I. }
  split.
  - intros k Hk. apply Hlab. left.
    pose proof (proj1 (Forall_forall _ _) Hkeys k Hk) as Hno.
    apply list_elem_of_fmap in Hk as ([k' e] & -> & Hin).
    apply list_elem_of_split in Hin as (a & b & Heq).
    exists a, k', e, b. split; [done|]. split; [done|].
    intros p Hp. apply (proj1 (Forall_forall _ _) Hno).
    rewrite Heq. apply elem_of_app. right. by right.
  - intros old Hold Hc.
    destruct (proj1 (Forall_forall _ _) Hsrc old Hold) as [Hex Hnk].
    apply Hlab in Hc as [(a & k & e & b & Heq & Hk & _)|[_ Hno]].
    + apply str_inj in Hk as ->. apply Hnk. rewrite Heq.
      rewrite fmap_app, fmap_cons. apply elem_of_app. right. by left.
    + apply Exists_exists in Hex as (p & Hp & Hcons). by apply (Hno p).
Qed.

Lemma norm_dict_labels_witness :
  ∃ t', heap (normalize numbers_only 0 norm_dict "null"
                (world_of one_car)).2 !! 0 = Some t' ∧
        str "make" ∈ columns t' ∧ str "MakeText" ∉ columns t'.
Proof.
  destruct (norm_dict_labels numbers_only (world_of one_car) 0 one_car "null"
              0 (normalize numbers_only 0 norm_dict "null"
                   (world_of one_car)).2 eq_refl)
    as (t' & Ht' & Hkeys & Hsrc).
  { vm_compute. reflexivity. }
  exists t'. split; [exact Ht'|]. split.
  - apply Hkeys. apply (bool_decide_unpack _). vm_compute. exact I.
  - apply Hsrc. apply (bool_decide_unpack _). vm_compute. exact I.
Defined.
